(** * wikipedia-tool-calling-rag: the conversational pipeline of [index.ts]

    A shallow embedding of [src/index.ts].  The program is a command-line
    loop around a LangGraph [StateGraph] with four nodes ([search],
    [fetchWiki], [retrieve], [generate]); every node calls a hosted
    service (the chat model, the Wikipedia client, the embeddings
    endpoint).  The services are oracles of an environment [Env]; the
    process state (console, checkpoints of the [MemorySaver], the
    [embeddingCache]) is threaded through a small state-and-exception
    monad [M].

    The code is embedded twice.  First with every handler run in one
    piece ([onData], [session]): this is the program when each chunk of
    input arrives after the turn before it has ended.  Then, in
    [Async], with the [await]s of the source written out and an event
    loop that interleaves the handlers at them.  The first is the
    second under the schedules that resume each handler to its end
    before the next chunk is delivered. *)

From stdpp Require Import gmap strings list fin_maps.
From Stdlib Require Import ZArith Ascii.

Local Open Scope string_scope.
Local Open Scope list_scope.

(** ** JavaScript strings and values

    A JavaScript string is modelled by its UTF-8 encoding, a [string]
    of bytes: standard input is decoded from UTF-8 (line 197), and
    equality, concatenation and emptiness of strings are those of
    their encodings.  [undefined] is [None]. *)
Module Js.

(** The text whose UTF-8 encoding is [bytes]. *)
Definition utf8 (bytes : list nat) : string :=
  String.string_of_list_ascii (ascii_of_nat <$> bytes).

(** The line feed, written ["\n"] in the source. *)
Definition LF : string := String "010"%char "".

(** The WhiteSpace and LineTerminator code points of ECMAScript
    (sections 12.2 and 12.3), each in UTF-8: TAB, LF, VT, FF, CR, SP,
    U+00A0, U+1680, U+2000 to U+200A, U+2028, U+2029, U+202F, U+205F,
    U+3000 and U+FEFF. *)
Definition whiteSpace : list string :=
  utf8 <$> [ [9]; [10]; [11]; [12]; [13]; [32];
             [194; 160];
             [225; 154; 128];
             [226; 128; 128]; [226; 128; 129]; [226; 128; 130]; [226; 128; 131];
             [226; 128; 132]; [226; 128; 133]; [226; 128; 134]; [226; 128; 135];
             [226; 128; 136]; [226; 128; 137]; [226; 128; 138];
             [226; 128; 168]; [226; 128; 169]; [226; 128; 175];
             [226; 129; 159];
             [227; 128; 128];
             [239; 187; 191] ].

(** [w] is one white-space character. *)
Definition isWhiteSpace (w : string) : bool := existsb (String.eqb w) whiteSpace.

(** [String.prototype.trimStart]: the white-space characters [s]
    starts with are dropped, be they one, two or three bytes long. *)
Fixpoint trimStart (s : string) : string :=
  match s with
  | String c1 s1 =>
      if isWhiteSpace (String c1 "") then trimStart s1
      else
        match s1 with
        | String c2 s2 =>
            if isWhiteSpace (String c1 (String c2 "")) then trimStart s2
            else
              match s2 with
              | String c3 s3 =>
                  if isWhiteSpace (String c1 (String c2 (String c3 "")))
                  then trimStart s3 else s
              | EmptyString => s
              end
        | EmptyString => s
        end
  | EmptyString => s
  end.

(** [String.prototype.trimEnd]: [s] is cut where nothing but white
    space follows. *)
Fixpoint trimEnd (s : string) : string :=
  match s with
  | EmptyString => EmptyString
  | String c s' =>
      if String.eqb (trimStart s) "" then EmptyString else String c (trimEnd s')
  end.

(** [String.prototype.trim] *)
Definition trim (s : string) : string := trimEnd (trimStart s).

(** Lower-case mapping of one byte: the letters A to Z.  The bytes of
    every other character are kept: no character outside ASCII has a
    lower-case mapping with [/], [b], [y] or [e] in it, so the one
    comparison the program makes, with ["/bye"], is not affected. *)
Definition lowerUnit (c : ascii) : ascii :=
  let n := nat_of_ascii c in
  if Nat.leb 65 n && Nat.leb n 90 then ascii_of_nat (n + 32) else c.

(** [String.prototype.toLowerCase] *)
Fixpoint toLowerCase (s : string) : string :=
  match s with
  | EmptyString => EmptyString
  | String c s' => String (lowerUnit c) (toLowerCase s')
  end.

(** [Array.prototype.join] on an array of strings *)
Fixpoint join (sep : string) (l : list string) : string :=
  match l with
  | [] => ""
  | [x] => x
  | x :: rest => x +:+ sep +:+ join sep rest
  end.

(** [Array.prototype.slice(0, n)] *)
Definition slice0 {A} (n : nat) (l : list A) : list A := take n l.

(** Truthiness of a value that is a string or [undefined]: the empty
    string and [undefined] are falsy. *)
Definition truthy_string (v : option string) : bool :=
  match v with
  | Some s => negb (String.eqb s "")
  | None => false
  end.

(** Truthiness of a value that is an array or [undefined]: every
    array, the empty one too, is truthy. *)
Definition truthy_array {A} (v : option (list A)) : bool :=
  match v with
  | Some _ => true
  | None => false
  end.

End Js.

(** ** Errors and results of calls *)

Inductive JsError :=
| TypeError (msg : string)        (* a property read on [undefined] *)
| ServiceError (msg : string)     (* a hosted service rejected the call *)
| GraphRecursionError              (* LangGraph recursion limit *)
| ConfigError (msg : string).     (* [main] found no API key *)

Inductive Res (A : Type) :=
| Ok (a : A)
| Err (e : JsError).
Arguments Ok {A} a.
Arguments Err {A} e.

Definition isOk {A} (r : Res A) : bool :=
  match r with Ok _ => true | Err _ => false end.

(** ** Data of the program *)

(** [Document] of [@langchain/core/documents] (its page text). *)
Record Document := { pageContent : string }.

(** The arguments of a [wikipedia] tool call.  They are taken to match
    [wikipediaSchema], the schema the tool is bound to the model with:
    an object with a string [searchTerm].  (The code reads
    [args.searchTerm] as it comes; what it does with a call that does
    not match the schema is not modelled.) *)
Record WikipediaArgs := { searchTerm_arg : string }.

Record ToolCall := { name : string; args : WikipediaArgs }.

(** The chat model's reply: its text and, optionally, tool calls. *)
Record AIMessage := { content : string; tool_calls : option (list ToolCall) }.

(** The channels of [StateAnnotation]; a channel never written is
    [None].  A node's return value, a partial state, has the same
    shape: a key it leaves out is [None]. *)
Record State := {
  question : option string;
  context : option (list Document);
  searchTerm : option string;
  searchContent : option string;
  answer : option string;
  previousQuestion : option string
}.

(** A prompt template together with the values it is invoked on. *)
Inductive PromptValue :=
| startingPrompt (question : option string)
| followUpPrompt (question : option string) (context : option (list Document))
                 (answer previousQuestion : option string)
| prompt (question : option string) (context : string).

(** The [wikipedia] client: a search answers with result records, a
    page object is what its [content()] call yields. *)
Module wiki.
Record result := { title : string }.
Record wikiSearchResult := { results : list result }.
Record Page := { content : Res string }.
End wiki.

(** A [MemoryVectorStore] is what its [similaritySearch] answers; the
    first argument is the time of the call. *)
Record MemoryVectorStore := {
  similaritySearch : nat -> option string -> Res (list Document)
}.

(** Lines written to the console ([chalk] only colours them). *)
Inductive Line :=
| Banner
| Goodbye
| Thinking
| AnswerLine (answer : option string)
| ErrorProcessingQuestion (error : JsError)
| AskAnotherQuestion
| AnsweringFromPreviousContext
| FetchingWikipediaContentFor (searchTerm : option string)
| SearchingWikipediaFor (searchTerm : string)
| WikipediaSearchComplete (titles : string)
| CreatingEmbeddings
| CreatedEmbeddings
| UsingCachedEmbeddings.

(** What the process does that can be observed from outside. *)
Inductive Event :=
| ConsoleLog (l : Line)
| ConsoleError (l : Line)
| LlmInvoke (messages : PromptValue)
| WikiSearch (searchTerm : string)
| WikiPage (title : string)
| CreateEmbeddings (text : option string)
| AddDocuments (documents : list Document)
| SimilaritySearch (query : option string)
| GraphInvoke (thread_id : Z) (inputs : State)
| ProcessExit (code : Z).

(** The hosted services.  Every answer may depend on the time [clock]
    of the call, so a service can fail once and answer later.
    [settleOrder] is the order in which the event loop settles the
    promises handed to [Promise.all]. *)
Record Env := {
  llm_invoke : nat -> PromptValue -> Res AIMessage;
  wiki_search : nat -> string -> Res wiki.wikiSearchResult;
  wiki_page : nat -> string -> Res wiki.Page;
  createDocuments : string -> list Document;
  addDocuments : nat -> list Document -> Res MemoryVectorStore;
  settleOrder : nat -> list nat
}.

(** The state of the running process. *)
Record Proc := {
  clock : nat;
  trace : list Event;
  embeddingCache : gmap (option string) MemoryVectorStore;
  memory : gmap Z State
}.

(** ** The monad of the program: state and exceptions.  A thrown error
    keeps the state reached when it was thrown. *)
Definition M (A : Type) : Type := Proc -> Res A * Proc.

Definition ret {A} (a : A) : M A := fun p => (Ok a, p).

Definition bind {A B} (m : M A) (k : A -> M B) : M B :=
  fun p => match m p with
           | (Ok a, p') => k a p'
           | (Err e, p') => (Err e, p')
           end.

Definition throw {A} (e : JsError) : M A := fun p => (Err e, p).

Declare Scope prog_scope.
Delimit Scope prog_scope with prog.
Notation "x <- m ;; k" := (bind m (fun x => k))
  (at level 100, m at next level, right associativity) : prog_scope.
Notation "m ;;; k" := (bind m (fun _ => k))
  (at level 100, right associativity) : prog_scope.
Local Open Scope prog_scope.

Definition emit (e : Event) (p : Proc) : Proc :=
  {| clock := clock p; trace := trace p ++ [e];
     embeddingCache := embeddingCache p; memory := memory p |}.

Definition tick (p : Proc) : Proc :=
  {| clock := S (clock p); trace := trace p;
     embeddingCache := embeddingCache p; memory := memory p |}.

(** [console.log] *)
Definition console_log (l : Line) : M unit :=
  fun p => (Ok tt, emit (ConsoleLog l) p).

(** A call to a hosted service: it is recorded, answered at the
    current time, and time advances. *)
Definition call {A} (e : Event) (service : nat -> Res A) : M A :=
  fun p => (service (clock p), tick (emit e p)).

(** [embeddingCache.get] and [embeddingCache.set] *)
Definition cache_get (k : option string) : M (option MemoryVectorStore) :=
  fun p => (Ok (embeddingCache p !! k), p).

Definition cache_set (k : option string) (v : MemoryVectorStore) : M unit :=
  fun p => (Ok tt,
            {| clock := clock p; trace := trace p;
               embeddingCache := <[k := v]> (embeddingCache p);
               memory := memory p |}).

(** The [MemorySaver]: the latest checkpoint of each thread. *)
Definition getCheckpoint (thread_id : Z) : M (option State) :=
  fun p => (Ok (memory p !! thread_id), p).

Definition putCheckpoint (thread_id : Z) (st : State) : M unit :=
  fun p => (Ok tt,
            {| clock := clock p; trace := trace p;
               embeddingCache := embeddingCache p;
               memory := <[thread_id := st]> (memory p) |}).

(** ** [Promise.all]

    The promises are started in array order.  They then settle in the
    order [order]; a promise the list leaves out settles afterwards, and
    one that is listed twice is settled by then.  A fulfilled promise
    stores its value at its own index; the first rejection rejects the
    whole. *)
Definition settle {A} (outcomes : list (Res A)) (acc : Res (list (option A)))
    (i : nat) : Res (list (option A)) :=
  match acc with
  | Err e => Err e
  | Ok values =>
      match outcomes !! i with
      | None => Ok values
      | Some (Ok v) => Ok (<[i := Some v]> values)
      | Some (Err e) => Err e
      end
  end.

Definition settleAll {A} (order : list nat) (outcomes : list (Res A)) : Res (list A) :=
  let k := length outcomes in
  match foldl (settle outcomes) (Ok (replicate k None)) (order ++ seq 0 k) with
  | Err e => Err e
  | Ok values => Ok (omap id values)
  end.

Fixpoint startAll {A} (promises : list (M A)) (p : Proc) : list (Res A) * Proc :=
  match promises with
  | [] => ([], p)
  | m :: rest =>
      let '(r, p1) := m p in
      let '(rs, p2) := startAll rest p1 in
      (r :: rs, p2)
  end.

Definition MAX_SEARCH_RESULTS : nat := 3.

(** ** The program *)
Section Program.

Variable env : Env.

(** An instrumentation point: the event is recorded, nothing else. *)
Definition record (e : Event) : M unit := fun p => (Ok tt, emit e p).

(** One element of [trimmedResults.map(async (title) => ...)]: the
    page is requested, then its text. *)
Definition pageText (title : string) : M string :=
  page <- call (WikiPage title) (fun t => wiki_page env t title) ;;
  (fun p => (wiki.content page, p)).

(** [Promise.all] over started promises. *)
Definition Promise_all {A} (promises : list (M A)) : M (list A) :=
  fun p =>
    let '(outcomes, p1) := startAll promises p in
    (settleAll (settleOrder env (clock p1)) outcomes, p1).

Definition getWikiPageContent (searchTerm : string) : M string :=
  console_log (SearchingWikipediaFor searchTerm) ;;;
  searchResults <- call (WikiSearch searchTerm)
                        (fun t => wiki_search env t searchTerm) ;;
  let trimmedResults :=
    map wiki.title (Js.slice0 MAX_SEARCH_RESULTS (wiki.results searchResults)) in
  contents <- Promise_all (map pageText trimmedResults) ;;
  console_log (WikipediaSearchComplete (Js.join ", " trimmedResults)) ;;;
  ret (Js.join Js.LF contents).

(** [createEmbeddings].  The splitter reads [text.includes]: on
    [undefined] that is a [TypeError], before any document exists. *)
Definition createEmbeddings (text : option string) : M MemoryVectorStore :=
  record (CreateEmbeddings text) ;;;
  match text with
  | None => throw (TypeError "Cannot read properties of undefined (reading 'includes')")
  | Some t =>
      let allSplits := createDocuments env t in
      call (AddDocuments allSplits) (fun clk => addDocuments env clk allSplits)
  end.

Definition noUpdate : State :=
  {| question := None; context := None; searchTerm := None;
     searchContent := None; answer := None; previousQuestion := None |}.

(** The messages [search] sends: the follow-up template when
    [state.context && state.answer] is truthy, else the starting one. *)
Definition searchMessages (state : State) : PromptValue :=
  if Js.truthy_array (context state) && Js.truthy_string (answer state)
  then followUpPrompt (question state) (context state) (answer state)
                      (previousQuestion state)
  else startingPrompt (question state).

(** [response.tool_calls?.find((call) => call.name === "wikipedia")] *)
Definition findWikiToolCall (response : AIMessage) : option ToolCall :=
  match tool_calls response with
  | None => None
  | Some calls => List.find (fun call => String.eqb (name call) "wikipedia") calls
  end.

Definition search (state : State) : M State :=
  let messages := searchMessages state in
  response <- call (LlmInvoke messages) (fun t => llm_invoke env t messages) ;;
  match findWikiToolCall response with
  | None =>
      ret {| question := None; context := None; searchTerm := Some "";
             searchContent := None; answer := Some (content response);
             previousQuestion := None |}
  | Some wikiToolCall =>
      let searchTerm := searchTerm_arg (args wikiToolCall) in
      ret {| question := None; context := None; searchTerm := Some searchTerm;
             searchContent := None; answer := Some (content response);
             previousQuestion := question state |}
  end.

(** [!state.searchTerm] holds of [undefined] and of the empty string. *)
Definition fetchWiki (state : State) : M State :=
  match searchTerm state with
  | Some term =>
      if String.eqb term "" then
        console_log AnsweringFromPreviousContext ;;; ret state
      else
        console_log (FetchingWikipediaContentFor (searchTerm state)) ;;;
        wikiContent <- getWikiPageContent term ;;
        ret {| question := None; context := None; searchTerm := None;
               searchContent := Some wikiContent; answer := None;
               previousQuestion := None |}
  | None =>
      console_log AnsweringFromPreviousContext ;;; ret state
  end.

Definition retrieve (state : State) : M State :=
  cached <- cache_get (searchContent state) ;;
  vectorStore <-
    match cached with
    | None =>
        console_log CreatingEmbeddings ;;;
        vectorStore <- createEmbeddings (searchContent state) ;;
        cache_set (searchContent state) vectorStore ;;;
        console_log CreatedEmbeddings ;;;
        ret vectorStore
    | Some vectorStore =>
        console_log UsingCachedEmbeddings ;;;
        ret vectorStore
    end ;;
  retrievedDocs <- call (SimilaritySearch (question state))
                        (fun t => similaritySearch vectorStore t (question state)) ;;
  ret {| question := None; context := Some retrievedDocs; searchTerm := None;
         searchContent := None; answer := None; previousQuestion := None |}.

Definition generate (state : State) : M State :=
  match context state with
  | None => throw (TypeError "Cannot read properties of undefined (reading 'map')")
  | Some docs =>
      let docsContent := Js.join Js.LF (map pageContent docs) in
      let messages := prompt (question state) docsContent in
      response <- call (LlmInvoke messages) (fun t => llm_invoke env t messages) ;;
      ret {| question := None; context := None; searchTerm := None;
             searchContent := None; answer := Some (content response);
             previousQuestion := None |}
  end.

(** *** The graph and its runner

    Every channel keeps the last value written to it.  A graph
    compiled with a checkpointer loads the thread's latest checkpoint,
    writes the inputs over it and saves, then saves again after every
    node (LangGraph's loop puts one checkpoint per super-step, and the
    [MemorySaver] keeps the latest of each thread).  A node that throws
    ends the run; the checkpoints written so far stay.  At most
    [recursionLimit] nodes run. *)
Definition orElse {A} (new old : option A) : option A :=
  match new with Some v => Some v | None => old end.

Definition applyUpdate (update state : State) : State :=
  {| question := orElse (question update) (question state);
     context := orElse (context update) (context state);
     searchTerm := orElse (searchTerm update) (searchTerm state);
     searchContent := orElse (searchContent update) (searchContent state);
     answer := orElse (answer update) (answer state);
     previousQuestion := orElse (previousQuestion update) (previousQuestion state) |}.

Record StateGraph := {
  nodes : list (string * (State -> M State));
  edges : list (string * string)
}.

Definition addNode (key : string) (action : State -> M State) (g : StateGraph) :=
  {| nodes := nodes g ++ [(key, action)]; edges := edges g |}.

Definition addEdge (startKey endKey : string) (g : StateGraph) :=
  {| nodes := nodes g; edges := edges g ++ [(startKey, endKey)] |}.

Definition graph : StateGraph :=
  let g := {| nodes := []; edges := [] |} in
  let g := addNode "search" search g in
  let g := addNode "fetchWiki" fetchWiki g in
  let g := addNode "retrieve" retrieve g in
  let g := addNode "generate" generate g in
  let g := addEdge "__start__" "search" g in
  let g := addEdge "search" "fetchWiki" g in
  let g := addEdge "fetchWiki" "retrieve" g in
  let g := addEdge "retrieve" "generate" g in
  addEdge "generate" "__end__" g.

Definition recursionLimit : nat := 25.

Definition successor (g : StateGraph) (key : string) : option string :=
  snd <$> List.find (fun e => String.eqb (fst e) key) (edges g).

Definition nodeAction (g : StateGraph) (key : string) : option (State -> M State) :=
  snd <$> List.find (fun n => String.eqb (fst n) key) (nodes g).

Fixpoint runFrom (g : StateGraph) (limit : nat) (thread_id : Z)
    (key : string) (state : State) : M State :=
  match successor g key with
  | None => ret state
  | Some next =>
      if String.eqb next "__end__" then ret state
      else
        match limit with
        | 0 => throw GraphRecursionError
        | S limit' =>
            match nodeAction g next with
            | None => throw (TypeError "unknown node")
            | Some action =>
                update <- action state ;;
                let state' := applyUpdate update state in
                putCheckpoint thread_id state' ;;;
                runFrom g limit' thread_id next state'
            end
        end
  end.

Definition invoke (g : StateGraph) (inputs : State) (thread_id : Z) : M State :=
  record (GraphInvoke thread_id inputs) ;;;
  saved <- getCheckpoint thread_id ;;
  let state := applyUpdate inputs (default noUpdate saved) in
  putCheckpoint thread_id state ;;;
  runFrom g recursionLimit thread_id "__start__" state.

(** *** The session loop *)
Inductive Signal :=
| Continue
| Exited (code : Z).

(** The handler of [process.stdin]'s [data] event. *)
Definition onData (data : string) (p : Proc) : Signal * Proc :=
  let question := Js.trim data in
  if String.eqb (Js.toLowerCase question) "/bye" then
    (Exited 0, emit (ProcessExit 0) (emit (ConsoleLog Goodbye) p))
  else if Nat.eqb (String.length question) 0 then (Continue, p)
  else
    let inputs :=
      {| question := Some question; context := None; searchTerm := None;
         searchContent := None; answer := None; previousQuestion := None |} in
    let p1 := emit (ConsoleLog Thinking) p in
    let p3 :=
      match invoke graph inputs 1 p1 with
      | (Ok result, p2) => emit (ConsoleLog (AnswerLine (answer result))) p2
      | (Err error, p2) => emit (ConsoleError (ErrorProcessingQuestion error)) p2
      end in
    (Continue, emit (ConsoleLog AskAnotherQuestion) p3).

(** The process right after [main] has set the loop up. *)
Definition started : Proc :=
  {| clock := 0; trace := [ConsoleLog Banner];
     embeddingCache := ∅; memory := ∅ |}.

(** The chunks of standard input, handled one after the other until
    the process exits: each chunk arrives after the handler of the
    chunk before it has returned.  ([Async.run] is the loop without
    that restriction.) *)
Fixpoint session (input : list string) (p : Proc) : Signal * Proc :=
  match input with
  | [] => (Continue, p)
  | data :: rest =>
      match onData data p with
      | (Continue, p') => session rest p'
      | (Exited code, p') => (Exited code, p')
      end
  end.

(** [main]: without the API key the process dies before the loop. *)
Definition main (OPENAI_API_KEY : option string) (input : list string)
    : Res (Signal * Proc) :=
  if negb (Js.truthy_string OPENAI_API_KEY)
  then Err (ConfigError "OPENAI_API_KEY is required in .env file")
  else Ok (session input started).

End Program.

(** ** The program under the event loop

    [index.ts] is asynchronous.  At an [await] a handler is suspended
    and the event loop goes on: it may deliver the next chunk of
    standard input, or resume another handler, before this one is
    resumed.  The embedding above runs a handler in one piece; the one
    below is the same code with the [await]s of the source written
    out, and an event loop that interleaves the handlers. *)
Module Async.

(** An asynchronous computation under way: settled with a value or an
    error; [process.exit] was called; a step to take on the process
    state; suspended at an [await]. *)
Inductive Task (A : Type) : Type :=
| Settled (r : Res A)
| Exit (code : Z)
| Run (next : Proc -> Task A) (effect : Proc -> Proc)
| Await (rest : Task A).
Arguments Settled {A} r.
Arguments Exit {A} code.
Arguments Run {A} next effect.
Arguments Await {A} rest.

(** A computation that is settled with the value [a]. *)
Definition resolve {A} (a : A) : Task A := Settled (Ok a).

Fixpoint bind {A B} (m : Task A) (k : A -> Task B) : Task B :=
  match m with
  | Settled (Ok a) => k a
  | Settled (Err e) => Settled (Err e)
  | Exit code => Exit code
  | Run next effect => Run (fun p => bind (next p) k) effect
  | Await rest => Await (bind rest k)
  end.

Declare Scope task_scope.
Delimit Scope task_scope with task.
Notation "x <- m ;; k" := (bind m (fun x => k))
  (at level 100, m at next level, right associativity) : task_scope.
Notation "m ;;; k" := (bind m (fun _ => k))
  (at level 100, right associativity) : task_scope.
Local Open Scope task_scope.

(** Code that runs without being suspended. *)
Definition now {A} (m : M A) : Task A :=
  Run (fun p => Settled (fst (m p))) (fun p => snd (m p)).

(** [await m]: [m] runs until it settles, and the caller is resumed
    with its value or its error in a later turn of the event loop. *)
Fixpoint await {A} (m : Task A) : Task A :=
  match m with
  | Settled r => Await (Settled r)
  | Exit code => Exit code
  | Run next effect => Run (fun p => await (next p)) effect
  | Await rest => Await (await rest)
  end.

(** [try { ... } catch (error) { ... }]: the outcome of the block.
    [process.exit] is not caught. *)
Fixpoint tryCatch {A} (m : Task A) : Task (Res A) :=
  match m with
  | Settled r => Settled (Ok r)
  | Exit code => Exit code
  | Run next effect => Run (fun p => tryCatch (next p)) effect
  | Await rest => Await (tryCatch rest)
  end.

(** [process.exit] *)
Definition process_exit {A} (code : Z) : Task A :=
  now (record (ProcessExit code)) ;;; Exit code.

Section Program.

Variable env : Env.

Definition getWikiPageContent (searchTerm : string) : Task string :=
  now (console_log (SearchingWikipediaFor searchTerm)) ;;;
  searchResults <- await (now (call (WikiSearch searchTerm)
                                    (fun t => wiki_search env t searchTerm))) ;;
  let trimmedResults :=
    map wiki.title (Js.slice0 MAX_SEARCH_RESULTS (wiki.results searchResults)) in
  contents <- await (now (Promise_all env (map (pageText env) trimmedResults))) ;;
  now (console_log (WikipediaSearchComplete (Js.join ", " trimmedResults))) ;;;
  resolve (Js.join Js.LF contents).

Definition createEmbeddings (text : option string) : Task MemoryVectorStore :=
  now (record (CreateEmbeddings text)) ;;;
  allSplits <-
    await (match text with
           | None =>
               Settled (Err (TypeError
                 "Cannot read properties of undefined (reading 'includes')"))
           | Some t => resolve (createDocuments env t)
           end) ;;
  await (now (call (AddDocuments allSplits) (fun clk => addDocuments env clk allSplits))).

Definition search (state : State) : Task State :=
  messages <- await (resolve (searchMessages state)) ;;
  response <- await (now (call (LlmInvoke messages)
                               (fun t => llm_invoke env t messages))) ;;
  match findWikiToolCall response with
  | None =>
      resolve {| question := None; context := None; searchTerm := Some "";
                 searchContent := None; answer := Some (content response);
                 previousQuestion := None |}
  | Some wikiToolCall =>
      let searchTerm := searchTerm_arg (args wikiToolCall) in
      resolve {| question := None; context := None; searchTerm := Some searchTerm;
                 searchContent := None; answer := Some (content response);
                 previousQuestion := question state |}
  end.

Definition fetchWiki (state : State) : Task State :=
  match searchTerm state with
  | Some term =>
      if String.eqb term "" then
        now (console_log AnsweringFromPreviousContext) ;;; resolve state
      else
        now (console_log (FetchingWikipediaContentFor (searchTerm state))) ;;;
        wikiContent <- await (getWikiPageContent term) ;;
        resolve {| question := None; context := None; searchTerm := None;
                   searchContent := Some wikiContent; answer := None;
                   previousQuestion := None |}
  | None =>
      now (console_log AnsweringFromPreviousContext) ;;; resolve state
  end.

Definition retrieve (state : State) : Task State :=
  cached <- now (cache_get (searchContent state)) ;;
  vectorStore <-
    match cached with
    | None =>
        now (console_log CreatingEmbeddings) ;;;
        vectorStore <- await (createEmbeddings (searchContent state)) ;;
        now (cache_set (searchContent state) vectorStore) ;;;
        now (console_log CreatedEmbeddings) ;;;
        resolve vectorStore
    | Some vectorStore =>
        now (console_log UsingCachedEmbeddings) ;;;
        resolve vectorStore
    end ;;
  retrievedDocs <- await (now (call (SimilaritySearch (question state))
                                    (fun t => similaritySearch vectorStore t
                                                (question state)))) ;;
  resolve {| question := None; context := Some retrievedDocs; searchTerm := None;
             searchContent := None; answer := None; previousQuestion := None |}.

Definition generate (state : State) : Task State :=
  match context state with
  | None => Settled (Err (TypeError "Cannot read properties of undefined (reading 'map')"))
  | Some docs =>
      let docsContent := Js.join Js.LF (map pageContent docs) in
      messages <- await (resolve (prompt (question state) docsContent)) ;;
      response <- await (now (call (LlmInvoke messages)
                                   (fun t => llm_invoke env t messages))) ;;
      resolve {| question := None; context := None; searchTerm := None;
                 searchContent := None; answer := Some (content response);
                 previousQuestion := None |}
  end.

(** *** The graph and its runner

    As above, with the calls of the runner awaited: loading the
    checkpoint, saving one, and every node. *)
Record StateGraph := {
  nodes : list (string * (State -> Task State));
  edges : list (string * string)
}.

Definition addNode (key : string) (action : State -> Task State) (g : StateGraph) :=
  {| nodes := nodes g ++ [(key, action)]; edges := edges g |}.

Definition addEdge (startKey endKey : string) (g : StateGraph) :=
  {| nodes := nodes g; edges := edges g ++ [(startKey, endKey)] |}.

Definition graph : StateGraph :=
  let g := {| nodes := []; edges := [] |} in
  let g := addNode "search" search g in
  let g := addNode "fetchWiki" fetchWiki g in
  let g := addNode "retrieve" retrieve g in
  let g := addNode "generate" generate g in
  let g := addEdge "__start__" "search" g in
  let g := addEdge "search" "fetchWiki" g in
  let g := addEdge "fetchWiki" "retrieve" g in
  let g := addEdge "retrieve" "generate" g in
  addEdge "generate" "__end__" g.

Definition successor (g : StateGraph) (key : string) : option string :=
  snd <$> List.find (fun e => String.eqb (fst e) key) (edges g).

Definition nodeAction (g : StateGraph) (key : string) : option (State -> Task State) :=
  snd <$> List.find (fun n => String.eqb (fst n) key) (nodes g).

Fixpoint runFrom (g : StateGraph) (limit : nat) (thread_id : Z)
    (key : string) (state : State) : Task State :=
  match successor g key with
  | None => resolve state
  | Some next =>
      if String.eqb next "__end__" then resolve state
      else
        match limit with
        | 0 => Settled (Err GraphRecursionError)
        | S limit' =>
            match nodeAction g next with
            | None => Settled (Err (TypeError "unknown node"))
            | Some action =>
                update <- await (action state) ;;
                let state' := applyUpdate update state in
                await (now (putCheckpoint thread_id state')) ;;;
                runFrom g limit' thread_id next state'
            end
        end
  end.

Definition invoke (g : StateGraph) (inputs : State) (thread_id : Z) : Task State :=
  now (record (GraphInvoke thread_id inputs)) ;;;
  saved <- await (now (getCheckpoint thread_id)) ;;
  let state := applyUpdate inputs (default noUpdate saved) in
  await (now (putCheckpoint thread_id state)) ;;;
  runFrom g recursionLimit thread_id "__start__" state.

(** *** The handler of [process.stdin]'s [data] event *)
Definition onData (data : string) : Task unit :=
  let question := Js.trim data in
  if String.eqb (Js.toLowerCase question) "/bye" then
    now (console_log Goodbye) ;;;
    process_exit 0
  else if Nat.eqb (String.length question) 0 then resolve tt
  else
    let inputs :=
      {| question := Some question; context := None; searchTerm := None;
         searchContent := None; answer := None; previousQuestion := None |} in
    outcome <- tryCatch (now (console_log Thinking) ;;;
                         await (invoke graph inputs 1)) ;;
    match outcome with
    | Ok result => now (console_log (AnswerLine (answer result)))
    | Err error => now (record (ConsoleError (ErrorProcessingQuestion error)))
    end ;;;
    now (console_log AskAnotherQuestion).

End Program.

(** *** The event loop

    The process, the handlers that are suspended, and the exit code
    once [process.exit] was called. *)
Record Loop := {
  proc : Proc;
  waiting : list (Task unit);
  exitCode : option Z
}.

(** What the event loop does next: it delivers a chunk of standard
    input to the handler, or it resumes the suspended handler number
    [i], whose awaited call has settled.  (The end of standard input
    is no event here: what the runtime does once nothing is left to
    wait for is not modelled.) *)
Inductive LoopEvent :=
| Data (chunk : string)
| Resume (i : nat).

(** A task runs until it is settled, suspended, or exits. *)
Fixpoint advance {A} (t : Task A) (p : Proc) : Task A * Proc :=
  match t with
  | Run next effect => advance (next p) (effect p)
  | _ => (t, p)
  end.

(** One turn of the event loop.  A handler runs as far as it can; it
    is kept if it is suspended again, and forgotten once it returned.
    After [process.exit] nothing happens any more. *)
Definition step (env : Env) (l : Loop) (ev : LoopEvent) : Loop :=
  match exitCode l with
  | Some _ => l
  | None =>
      match ev with
      | Data chunk =>
          match advance (onData env chunk) (proc l) with
          | (Exit code, p) =>
              {| proc := p; waiting := waiting l; exitCode := Some code |}
          | (Await rest, p) =>
              {| proc := p; waiting := waiting l ++ [rest]; exitCode := None |}
          | (_, p) =>
              {| proc := p; waiting := waiting l; exitCode := None |}
          end
      | Resume i =>
          match waiting l !! i with
          | None => l
          | Some t =>
              match advance t (proc l) with
              | (Exit code, p) =>
                  {| proc := p; waiting := delete i (waiting l); exitCode := Some code |}
              | (Await rest, p) =>
                  {| proc := p; waiting := <[i := rest]> (waiting l); exitCode := None |}
              | (_, p) =>
                  {| proc := p; waiting := delete i (waiting l); exitCode := None |}
              end
          end
      end
  end.

Definition run (env : Env) (schedule : list LoopEvent) (l : Loop) : Loop :=
  foldl (step env) l schedule.

(** The loop with no handler under way. *)
Definition idle (p : Proc) : Loop := {| proc := p; waiting := []; exitCode := None |}.

(** [main]: without the API key the process dies before the loop. *)
Definition main (env : Env) (OPENAI_API_KEY : option string)
    (schedule : list LoopEvent) : Res Loop :=
  if negb (Js.truthy_string OPENAI_API_KEY)
  then Err (ConfigError "OPENAI_API_KEY is required in .env file")
  else Ok (run env schedule (idle started)).

End Async.

(** ** Vocabulary of the statements *)

(** What one page request yields at time [t]: the page, then its text. *)
Definition pageOutcome (env : Env) (t : nat) (title : string) : Res string :=
  match wiki_page env t title with
  | Ok page => wiki.content page
  | Err e => Err e
  end.

(** The requests for [titles] are issued one after the other from time [t]. *)
Fixpoint pageOutcomes (env : Env) (t : nat) (titles : list string) : list (Res string) :=
  match titles with
  | [] => []
  | title :: rest => pageOutcome env t title :: pageOutcomes env (S t) rest
  end.

(** The same services under another settling order of the promises. *)
Definition withSettleOrder (order : nat -> list nat) (env : Env) : Env :=
  {| llm_invoke := llm_invoke env; wiki_search := wiki_search env;
     wiki_page := wiki_page env; createDocuments := createDocuments env;
     addDocuments := addDocuments env; settleOrder := order |}.

(** A partly settled result array of [Promise.all]: every value stored
    so far sits at the index of its promise. *)
Definition agrees {A} (vs : list A) (values : list (option A)) : Prop :=
  length values = length vs ∧
  ∀ i x, values !! i = Some (Some x) → vs !! i = Some x.

Definition filled {A} (values : list (option A)) (i : nat) : Prop :=
  ∃ x, values !! i = Some (Some x).

(** ** Sample services, for concrete runs *)
Module Sample.

Definition say (text : string) : AIMessage :=
  {| content := text; tool_calls := None |}.

Definition askWikipedia (text searchTerm : string) : AIMessage :=
  {| content := text;
     tool_calls := Some [ {| name := "wikipedia";
                             args := {| searchTerm_arg := searchTerm |} |} ] |}.

Definition found (titles : list string) : wiki.wikiSearchResult :=
  {| wiki.results := (fun t => {| wiki.title := t |}) <$> titles |}.

(** A store that returns all its documents. *)
Definition store (documents : list Document) : MemoryVectorStore :=
  {| similaritySearch := fun _ _ => Ok documents |}.

(** Pages always load, the splitter makes one chunk of a non-empty
    text and none of an empty one, embedding always succeeds, and the
    third page is the first to arrive. *)
Definition services (llm : nat -> PromptValue -> Res AIMessage)
    (search : nat -> string -> Res wiki.wikiSearchResult) : Env :=
  {| llm_invoke := llm;
     wiki_search := search;
     wiki_page := fun _ title => Ok {| wiki.content := Ok ("Text of " +:+ title) |};
     createDocuments := fun text =>
       if String.eqb text "" then [] else [ {| pageContent := text |} ];
     addDocuments := fun _ documents => Ok (store documents);
     settleOrder := fun _ => [2; 0; 1] |}.

(** The model asks for a search on a first question and on the
    follow-up "What movies featured him?", and answers any other
    follow-up itself. *)
Definition chat (_ : nat) (messages : PromptValue) : Res AIMessage :=
  match messages with
  | startingPrompt _ => Ok (askWikipedia "" "Batman")
  | followUpPrompt q _ _ _ =>
      if bool_decide (q = Some "What movies featured him?")
      then Ok (askWikipedia "" "Batman movies")
      else Ok (say "He was played by Michael Keaton.")
  | prompt _ _ => Ok (say "Batman is a superhero.")
  end.

(** The model that never asks for a search. *)
Definition chatty (_ : nat) (_ : PromptValue) : Res AIMessage :=
  Ok (say "I know this one.").

Definition batmanTitles : list string :=
  ["Batman"; "Batman in film"; "The Batman (film)"; "Batman Returns"].

Definition searchOk (_ : nat) (_ : string) : Res wiki.wikiSearchResult :=
  Ok (found batmanTitles).

(** The search finds nothing. *)
Definition searchEmpty (_ : nat) (_ : string) : Res wiki.wikiSearchResult :=
  Ok (found []).


Definition healthy : Env := services chat searchOk.
Definition nothingFound : Env := services chat searchEmpty.
Definition knowItAll : Env := services chatty searchOk.

End Sample.

(** The four nodes in the order of the graph's edges. *)
Definition stages (env : Env) : list (State -> M State) :=
  [search env; fetchWiki env; retrieve env; generate env].

(** A run through a list of nodes, a checkpoint after each. *)
Fixpoint runStages (thread_id : Z) (actions : list (State -> M State))
    (state : State) : M State :=
  match actions with
  | [] => ret state
  | action :: rest =>
      (update <- action state ;;
       let state' := applyUpdate update state in
       putCheckpoint thread_id state' ;;;
       runStages thread_id rest state')%prog
  end.


(** The inputs of a turn: the question alone. *)
Definition inputsOf (question : string) : State :=
  {| question := Some question; context := None; searchTerm := None;
     searchContent := None; answer := None; previousQuestion := None |}.

(** The state a turn starts from: the thread's checkpoint with the new
    question written over it. *)
Definition turnState (question : string) (p : Proc) : State :=
  applyUpdate (inputsOf question) (default noUpdate (memory p !! 1%Z)).

(** Events a node may cause: all but entering the graph and exiting. *)
Definition nodeEvent (e : Event) : Prop :=
  match e with
  | GraphInvoke _ _ | ProcessExit _ => False
  | _ => True
  end.

(** What a node may do to the process: it leaves the checkpoints alone,
    may add to the cache, and appends node events to the trace. *)
Definition frames (p p' : Proc) : Prop :=
  memory p' = memory p
  ∧ embeddingCache p ⊆ embeddingCache p'
  ∧ ∃ events, trace p' = trace p ++ events ∧ Forall nodeEvent events.

(** The process when the nodes of a turn start: the handler has
    written its line, the graph is entered, the inputs are saved. *)
Definition turnStart (question : string) (p : Proc) : Proc :=
  snd (putCheckpoint 1 (turnState question p)
         (emit (GraphInvoke 1 (inputsOf question)) (emit (ConsoleLog Thinking) p))).

(** The turn the handler runs for a question. *)
Definition turn (env : Env) (question : string) (p : Proc) : Res State * Proc :=
  invoke (graph env) (inputsOf question) 1 (emit (ConsoleLog Thinking) p).

(** How many times [createEmbeddings] was entered for [content]. *)
Definition isBuildOf (content : option string) (e : Event) : bool :=
  match e with
  | CreateEmbeddings text => bool_decide (text = content)
  | _ => false
  end.

Definition builds (content : option string) (events : list Event) : nat :=
  length (List.filter (isBuildOf content) events).

(** The events [p'] has and [p], an earlier state, has not. *)
Definition newEvents (p p' : Proc) : list Event :=
  drop (length (trace p)) (trace p').

Module Runs.

(** The process after a first question for which the search found
    no page. *)
Definition afterNothingFound : Proc :=
  snd (onData Sample.nothingFound "Who is Zzyzx?" started).

(** The process after "Who is Batman?" was answered, all services up. *)
Definition afterBatmanHealthy : Proc :=
  snd (onData Sample.healthy "Who is Batman?" started).
End Runs.

(** The spellings of the exit command. *)
Definition byeSpellings : list string :=
  ["/bye"; "/byE"; "/bYe"; "/bYE"; "/Bye"; "/ByE"; "/BYe"; "/BYE"].

(** How many times the graph was entered, on any thread and on one. *)
Definition isInvoke (e : Event) : bool :=
  match e with GraphInvoke _ _ => true | _ => false end.

Definition isInvokeOn (thread_id : Z) (e : Event) : bool :=
  match e with GraphInvoke t _ => bool_decide (t = thread_id) | _ => false end.

Definition invocations (events : list Event) : nat :=
  length (List.filter isInvoke events).

Definition invocationsOn (thread_id : Z) (events : list Event) : nat :=
  length (List.filter (isInvokeOn thread_id) events).

(** Every service of [env] answers every call. *)
Definition answering (env : Env) : Prop :=
  (∀ t messages, ∃ response, llm_invoke env t messages = Ok response)
  ∧ (∀ t searchTerm, ∃ found, wiki_search env t searchTerm = Ok found)
  ∧ (∀ t title, ∃ text, wiki_page env t title = Ok {| wiki.content := Ok text |})
  ∧ (∀ t documents, ∃ vectorStore,
       addDocuments env t documents = Ok vectorStore
       ∧ ∀ t' query, ∃ retrievedDocs,
           similaritySearch vectorStore t' query = Ok retrievedDocs).







(** ** Further sample services *)
Module Faulty.
(** The services of [Sample.healthy], but the page "Batman in film"
    does not load and "The Batman (film)" loads without a text. *)
Definition brokenPages : Env :=
  {| llm_invoke := Sample.chat;
     wiki_search := Sample.searchOk;
     wiki_page := fun _ title =>
       if String.eqb title "Batman in film" then Err (ServiceError "page not found")
       else if String.eqb title "The Batman (film)"
            then Ok {| wiki.content := Err (ServiceError "no content") |}
            else Ok {| wiki.content := Ok ("Text of " +:+ title) |};
     createDocuments := createDocuments Sample.healthy;
     addDocuments := addDocuments Sample.healthy;
     settleOrder := fun _ => [2; 0; 1] |}.

(** A store whose similarity search fails. *)
Definition deafStore : MemoryVectorStore :=
  {| similaritySearch := fun _ _ => Err (ServiceError "embedding the query failed") |}.

(** The services of [Sample.healthy], but every store built is deaf. *)
Definition deafStores : Env :=
  {| llm_invoke := Sample.chat; wiki_search := Sample.searchOk;
     wiki_page := wiki_page Sample.healthy;
     createDocuments := createDocuments Sample.healthy;
     addDocuments := fun _ _ => Ok deafStore;
     settleOrder := fun _ => [] |}.

(** The services of [Sample.healthy], but no store can be built. *)
Definition embeddingsDown : Env :=
  {| llm_invoke := Sample.chat; wiki_search := Sample.searchOk;
     wiki_page := wiki_page Sample.healthy;
     createDocuments := createDocuments Sample.healthy;
     addDocuments := fun _ _ => Err (ServiceError "embeddings endpoint down");
     settleOrder := fun _ => [] |}.
End Faulty.

(** The cache and the checkpoints are the same in [p] and [p']. *)
Definition sameStores (p p' : Proc) : Prop :=
  embeddingCache p' = embeddingCache p ∧ memory p' = memory p.

(** What every step of the program keeps true of the stores: nothing
    is cached under [undefined], every cached index was built from the
    text it is stored under, and only thread 1 has a checkpoint. *)
Definition tidyStores (env : Env) (p : Proc) : Prop :=
  embeddingCache p !! None = None
  ∧ (∀ text vectorStore,
       embeddingCache p !! Some text = Some vectorStore →
       ∃ t, addDocuments env t (createDocuments env text) = Ok vectorStore)
  ∧ ∀ thread_id, thread_id ≠ 1%Z → memory p !! thread_id = None.

(** The answers printed so far. *)
Definition isAnswerLine (e : Event) : bool :=
  match e with ConsoleLog (AnswerLine _) => true | _ => false end.

Definition answerLines (events : list Event) : list Event :=
  List.filter isAnswerLine events.

(** The [searchContent] of the thread's checkpoint. *)
Definition savedSearchContent (p : Proc) : option string :=
  memory p !! 1%Z ≫= searchContent.

(** The model never emits a [wikipedia] call. *)
Definition neverSearches (env : Env) : Prop :=
  ∀ t messages response,
    llm_invoke env t messages = Ok response → findWikiToolCall response = None.

(** [s] is made of white-space characters only. *)
Inductive whiteSpaceOnly : string -> Prop :=
| whiteSpaceOnly_nil : whiteSpaceOnly ""
| whiteSpaceOnly_cons w s :
    w ∈ Js.whiteSpace -> whiteSpaceOnly s -> whiteSpaceOnly (w +:+ s).

(** [s] starts with a white-space character; it ends with one. *)
Definition startsWithWhiteSpace (s : string) : Prop :=
  ∃ w rest, w ∈ Js.whiteSpace ∧ s = w +:+ rest.

Definition endsWithWhiteSpace (s : string) : Prop :=
  ∃ w front, w ∈ Js.whiteSpace ∧ s = front +:+ w.

(** A chunk that is not the exit command. *)
Definition notBye (data : string) : Prop := Js.trim data ∉ byeSpellings.

(** The hosted services a turn may call. *)
Inductive Service :=
| ChatModel
| TitleSearch
| PageRequest
| EmbeddingBuild
| IndexSearch.

Definition isCallTo (s : Service) (e : Event) : bool :=
  match s, e with
  | ChatModel, LlmInvoke _ => true
  | TitleSearch, WikiSearch _ => true
  | PageRequest, WikiPage _ => true
  | EmbeddingBuild, AddDocuments _ => true
  | IndexSearch, SimilaritySearch _ => true
  | _, _ => false
  end.

(** How many calls to [s] the events hold. *)
Definition calls (s : Service) (events : list Event) : nat :=
  length (List.filter (isCallTo s) events).

(** The most calls one turn makes to each service. *)
Definition perTurn (s : Service) : nat :=
  match s with
  | ChatModel => 2
  | TitleSearch => 1
  | PageRequest => 3
  | EmbeddingBuild => 1
  | IndexSearch => 1
  end.

(** [p'] comes after [p], with at most [budget s] more calls to each [s]. *)
Definition spends (budget : Service -> nat) (p p' : Proc) : Prop :=
  ∃ events, trace p' = trace p ++ events ∧ ∀ s, calls s events <= budget s.

Definition noCalls : Service -> nat := fun _ => 0.

Definition addBudgets (b1 b2 : Service -> nat) : Service -> nat := fun s => b1 s + b2 s.

Definition searchBudget (s : Service) : nat :=
  match s with ChatModel => 1 | _ => 0 end.

Definition fetchWikiBudget (s : Service) : nat :=
  match s with TitleSearch => 1 | PageRequest => 3 | _ => 0 end.

Definition retrieveBudget (s : Service) : nat :=
  match s with EmbeddingBuild => 1 | IndexSearch => 1 | _ => 0 end.

Definition generateBudget (s : Service) : nat :=
  match s with ChatModel => 1 | _ => 0 end.

(** Every page request yields a text, at any time. *)
Definition pagesLoad (env : Env) : Prop :=
  ∀ t title, ∃ text, pageOutcome env t title = Ok text.

(** [e] is an error that one of the services of [env] returns: the
    chat model, the title search, a page request, the embedding build,
    or the similarity search of an index that [env] built. *)
Definition serviceError (env : Env) (e : JsError) : Prop :=
  (∃ t messages, llm_invoke env t messages = Err e)
  ∨ (∃ t searchTerm, wiki_search env t searchTerm = Err e)
  ∨ (∃ t title, pageOutcome env t title = Err e)
  ∨ (∃ t documents, addDocuments env t documents = Err e)
  ∨ (∃ t documents vectorStore t' query,
       addDocuments env t documents = Ok vectorStore
       ∧ similaritySearch vectorStore t' query = Err e).

(** Every index in the cache of [p] was built by [env]. *)
Definition builtStores (env : Env) (p : Proc) : Prop :=
  ∀ key vectorStore,
    embeddingCache p !! key = Some vectorStore →
    ∃ t documents, addDocuments env t documents = Ok vectorStore.

(** ** Vocabulary for the program under the event loop *)

(** How a computation ends: it settles, or the process exits. *)
Inductive Outcome (A : Type) :=
| Finished (r : Res A)
| ProcessExited (code : Z).
Arguments Finished {A} r.
Arguments ProcessExited {A} code.

(** A task run in one piece: every [await] is resumed at once. *)
Fixpoint alone {A} (t : Async.Task A) (p : Proc) : Outcome A * Proc :=
  match t with
  | Async.Settled r => (Finished r, p)
  | Async.Exit code => (ProcessExited code, p)
  | Async.Run next effect => alone (next p) (effect p)
  | Async.Await rest => alone rest p
  end.

(** The outcome of code that runs in one piece. *)
Definition atomically {A} (m : M A) (p : Proc) : Outcome A * Proc :=
  (Finished (fst (m p)), snd (m p)).

(** The task [t] is the code [m] with its [await]s written out. *)
Definition erases {A} (t : Async.Task A) (m : M A) : Prop :=
  ∀ p, alone t p = atomically m p.

(** [runs t events o]: one life of the task [t] under the event loop.
    Each step finds the process in some state, whatever the other
    handlers made of it in the meantime; [events] is what the steps of
    [t] added to the trace, and [o] how [t] ended. *)
Inductive runs {A} : Async.Task A -> list Event -> Outcome A -> Prop :=
| runs_settled r : runs (Async.Settled r) [] (Finished r)
| runs_exit code : runs (Async.Exit code) [] (ProcessExited code)
| runs_run next effect p events o :
    runs (next p) events o ->
    runs (Async.Run next effect) (newEvents p (effect p) ++ events) o
| runs_await rest events o :
    runs rest events o -> runs (Async.Await rest) events o.

(** Every life of [t] satisfies [Q]. *)
Definition always {A} (t : Async.Task A) (Q : list Event -> Outcome A -> Prop) : Prop :=
  ∀ events o, runs t events o → Q events o.

(** A task that only causes node events and never exits the process. *)
Definition quiet {A} (t : Async.Task A) : Prop :=
  always t (fun events o => Forall nodeEvent events ∧ ∃ r, o = Finished r).

(** Code that adds node events to the trace, and nothing else. *)
Definition addsNodeEvents {A} (m : M A) : Prop :=
  ∀ p, ∃ events, trace (snd (m p)) = trace p ++ events ∧ Forall nodeEvent events.

(** A task that never calls [process.exit]. *)
Definition staysAlive {A} (t : Async.Task A) : Prop :=
  always t (fun _ o => ∃ r, o = Finished r).

(** The loop after a handler run in one piece. *)
Definition loopAfter (handled : Signal * Proc) (handlers : list (Async.Task unit))
    : Async.Loop :=
  {| Async.proc := snd handled; Async.waiting := handlers;
     Async.exitCode := match fst handled with
                       | Continue => None
                       | Exited code => Some code
                       end |}.

(** The line that ends a turn: the answer, or the error. *)
Definition isVerdictLine (e : Event) : bool :=
  match e with
  | ConsoleLog (AnswerLine _) => true
  | ConsoleError (ErrorProcessingQuestion _) => true
  | _ => false
  end.

(** What the handler, run in one piece, did and how it ended. *)
Definition handled (r : Signal * Proc) : Outcome unit * Proc :=
  (match fst r with
   | Continue => Finished (Ok tt)
   | Exited code => ProcessExited code
   end, snd r).

(** The event delivers no exit command. *)
Definition deliversNoBye (ev : Async.LoopEvent) : Prop :=
  match ev with
  | Async.Data chunk => notBye chunk
  | Async.Resume _ => True
  end.

(** The lines of a text: its pieces between line feeds; what follows
    the last line feed is a line if it is not empty. *)
Fixpoint linesFrom (current text : string) : list string :=
  match text with
  | EmptyString => if String.eqb current "" then [] else [current]
  | String c rest =>
      if Ascii.eqb c "010"%char then current :: linesFrom "" rest
      else linesFrom (current +:+ String c "") rest
  end.

Definition linesOf (text : string) : list string := linesFrom "" text.

Module Loops.
(** "Who is Batman?" has been delivered, and its handler waits for the
    checkpoint. *)
Definition thinking : Async.Loop :=
  Async.run Sample.healthy [Async.Data "Who is Batman?"] (Async.idle started).

(** Two lines that a pipe delivers as one chunk. *)
Definition twoLines : string := "Who is Batman?" +:+ Js.LF +:+ "/bye" +:+ Js.LF.
End Loops.

(** A white-space chunk outside Latin-1: an ideographic space, a line
    separator and a line feed. *)
Definition wideBlank : string :=
  Js.utf8 [227; 128; 128] +:+ Js.utf8 [226; 128; 168] +:+ Js.LF.

(** The event resumes a handler: no input is delivered. *)
Definition isResume (ev : Async.LoopEvent) : Prop :=
  match ev with
  | Async.Resume _ => True
  | Async.Data _ => False
  end.

(** The schedule that handles the chunks one at a time: each chunk is
    delivered and its handler, suspended behind [handlers] others, is
    resumed as many times as [resumptions] says before the next chunk
    is delivered. *)
Fixpoint oneAtATime (handlers : nat) (input : list string) (resumptions : list nat)
    : list Async.LoopEvent :=
  match input, resumptions with
  | data :: input', n :: resumptions' =>
      Async.Data data :: replicate n (Async.Resume handlers)
      ++ oneAtATime handlers input' resumptions'
  | _, _ => []
  end.

(** ** The model at work *)

Example trim_example : Js.trim ("  /Bye " +:+ Js.LF) = "/Bye".
Proof. reflexivity. Qed.

Example trim_inner_example : Js.trim "  Who is  Batman? " = "Who is  Batman?".
Proof. reflexivity. Qed.

(** An ideographic space before, a line separator and a line feed
    after; the zero-width space is no white space. *)
Example trim_wide_example :
  Js.trim (Js.utf8 [227; 128; 128] +:+ "Who?" +:+ Js.utf8 [226; 128; 168] +:+ Js.LF)
  = "Who?"
  /\ Js.trim (Js.utf8 [226; 128; 139] +:+ " ") = Js.utf8 [226; 128; 139].
Proof. split; reflexivity. Qed.

Example toLowerCase_example : Js.toLowerCase "/BYE now" = "/bye now".
Proof. reflexivity. Qed.

Example join_example : Js.join ", " ["Batman"; "Batman in film"] = "Batman, Batman in film".
Proof. reflexivity. Qed.

Example join_empty_example : Js.join Js.LF [] = "".
Proof. reflexivity. Qed.

Example settleAll_example :
  settleAll [2; 0; 1] [Ok "a"; Ok "b"; Ok "c"] = Ok ["a"; "b"; "c"].
Proof. reflexivity. Qed.

(** The rejection that comes first rejects the whole. *)
Example settleAll_rejection_example :
  settleAll [2; 0; 1] [Err (ServiceError "first"); Ok "b"; Err (ServiceError "third")]
  = @Err (list string) (ServiceError "third").
Proof. reflexivity. Qed.

(** The session of the README, in short: a question, a blank line, a
    follow-up the model answers from the context, the exit command. *)
Example session_example :
  let '(signal, p) :=
    session Sample.healthy ["Who is Batman?"; "  "; "Who played him?"; "/Bye"; "ignored"]
      started in
  signal = Exited 0
  /\ List.filter (fun e => match e with ConsoleLog (AnswerLine _) => true | _ => false end)
       (trace p)
     = [ConsoleLog (AnswerLine (Some "Batman is a superhero."));
        ConsoleLog (AnswerLine (Some "Batman is a superhero."))]
  /\ builds (Some (Js.join Js.LF ["Text of Batman"; "Text of Batman in film";
                                  "Text of The Batman (film)"])) (trace p) = 1.
Proof. vm_compute. repeat split. Qed.

(** ** [Promise.all] keeps the array order *)
Section PromiseAll.
Context {A : Type}.
Implicit Types (vs : list A) (values : list (option A)).

Lemma agrees_start vs : agrees vs (replicate (length vs) None).
Proof.
  split; [by rewrite length_replicate|].
  intros i x H. apply lookup_replicate in H as [? _]; discriminate.
Qed.

Lemma settle_fulfilled vs values i :
  agrees vs values →
  ∃ values', settle (Ok <$> vs) (Ok values) i = Ok values'
    ∧ agrees vs values'
    ∧ (i < length vs → filled values' i)
    ∧ (∀ j, filled values j → filled values' j).
Proof.
  intros [Hlen Hag]. unfold settle. rewrite list_lookup_fmap.
  destruct (vs !! i) as [v|] eqn:Hi; simpl.
  - exists (<[i := Some v]> values). split; [done|].
    assert (i < length values) as Hlt
      by (rewrite Hlen; by apply lookup_lt_Some in Hi).
    split; [|split].
    + split; [by rewrite length_insert|].
      intros j x Hj. destruct (decide (i = j)) as [->|Hne].
      * rewrite list_lookup_insert_eq in Hj by done. congruence.
      * rewrite list_lookup_insert_ne in Hj by done. by apply Hag.
    + intros _. exists v. by rewrite list_lookup_insert_eq.
    + intros j [x Hj]. destruct (decide (i = j)) as [->|Hne].
      * exists v. by rewrite list_lookup_insert_eq.
      * exists x. by rewrite list_lookup_insert_ne.
  - exists values. split; [done|]. split; [done|]. split; [|done].
    intros Hlt. apply lookup_ge_None in Hi. lia.
Qed.

Lemma foldl_settle_fulfilled vs order : ∀ values,
  agrees vs values →
  ∃ values', foldl (settle (Ok <$> vs)) (Ok values) order = Ok values'
    ∧ agrees vs values'
    ∧ (∀ i, i ∈ order → i < length vs → filled values' i)
    ∧ (∀ j, filled values j → filled values' j).
Proof.
  induction order as [|i order IH]; intros values Hag; cbn [foldl].
  - exists values. split; [done|]. split; [done|]. split; [|done].
    intros i Hi. by apply elem_of_nil in Hi.
  - destruct (settle_fulfilled vs values i Hag) as (v1 & -> & Hag1 & Hi1 & Hmono1).
    destruct (IH v1 Hag1) as (v2 & Hv2 & Hag2 & Hin2 & Hmono2).
    exists v2. split; [done|]. split; [done|]. split.
    + intros j Hj Hlt. apply elem_of_cons in Hj as [->|Hj]; auto.
    + auto.
Qed.

Lemma agrees_all_filled vs values :
  agrees vs values → (∀ i, i < length vs → filled values i) →
  values = Some <$> vs.
Proof.
  intros [Hlen Hag] Hall. apply list_eq. intros i.
  rewrite list_lookup_fmap.
  destruct (decide (i < length vs)) as [Hlt|Hge].
  - destruct (Hall i Hlt) as [x Hx]. rewrite Hx, (Hag i x Hx). done.
  - rewrite !lookup_ge_None_2; [done | lia | lia].
Qed.

Lemma omap_id_Some vs : omap id (Some <$> vs) = vs.
Proof. induction vs as [|v vs IH]; simpl; [done | by f_equal]. Qed.

(** When every promise fulfils, the result is the array of their
    values in the order of the promises, whatever the settling order. *)
Lemma settleAll_fulfilled order vs : settleAll order (Ok <$> vs) = Ok vs.
Proof.
  unfold settleAll. rewrite length_fmap.
  destruct (foldl_settle_fulfilled vs (order ++ seq 0 (length vs)) _ (agrees_start vs))
    as (values & -> & Hag & Hin & _).
  assert (values = Some <$> vs) as ->.
  { apply agrees_all_filled; [done|]. intros i Hlt. apply Hin; [|done].
    apply elem_of_app. right. apply elem_of_seq. lia. }
  by rewrite omap_id_Some.
Qed.
End PromiseAll.

(** ** The Content Fetcher *)

Lemma startAll_pageText env titles : ∀ p,
  startAll (map (pageText env) titles) p =
  (pageOutcomes env (clock p) titles,
   {| clock := clock p + length titles;
      trace := trace p ++ map WikiPage titles;
      embeddingCache := embeddingCache p; memory := memory p |}).
Proof.
  induction titles as [|title rest IH]; intros p; simpl.
  - destruct p; simpl. by rewrite Nat.add_0_r, app_nil_r.
  - unfold pageText at 1, bind, call, pageOutcome.
    destruct (wiki_page env (clock p) title) as [page|e]; simpl;
      rewrite IH; simpl; (f_equal; f_equal; [lia | by rewrite <- app_assoc]).
Qed.

Lemma pageOutcomes_withSettleOrder order env titles : ∀ t,
  pageOutcomes (withSettleOrder order env) t titles = pageOutcomes env t titles.
Proof. induction titles as [|title rest IH]; intros t; simpl; [done | by rewrite IH]. Qed.

Lemma getWikiPageContent_fulfilled env searchTerm p found texts :
  wiki_search env (clock p) searchTerm = Ok found →
  pageOutcomes env (S (clock p))
    (take MAX_SEARCH_RESULTS (wiki.title <$> wiki.results found)) = Ok <$> texts →
  getWikiPageContent env searchTerm p =
  (Ok (Js.join Js.LF texts),
   {| clock := S (clock p)
               + length (take MAX_SEARCH_RESULTS (wiki.title <$> wiki.results found));
      trace := trace p
               ++ [ConsoleLog (SearchingWikipediaFor searchTerm); WikiSearch searchTerm]
               ++ map WikiPage (take MAX_SEARCH_RESULTS (wiki.title <$> wiki.results found))
               ++ [ConsoleLog (WikipediaSearchComplete
                     (Js.join ", " (take MAX_SEARCH_RESULTS (wiki.title <$> wiki.results found))))];
      embeddingCache := embeddingCache p; memory := memory p |}).
Proof.
  rewrite <- fmap_take. intros Hsearch Hpages. revert Hpages.
  unfold getWikiPageContent, bind, console_log, call, Promise_all. cbn [emit tick clock].
  rewrite Hsearch. unfold Js.slice0.
  change (map wiki.title (take MAX_SEARCH_RESULTS (wiki.results found)))
    with (wiki.title <$> take MAX_SEARCH_RESULTS (wiki.results found)).
  generalize (wiki.title <$> take MAX_SEARCH_RESULTS (wiki.results found)).
  intros titles Hpages.
  rewrite startAll_pageText. simpl. rewrite Hpages, settleAll_fulfilled.
  unfold ret, emit; simpl. f_equal. f_equal.
  rewrite <- !app_assoc. done.
Qed.
(** ** Frame properties of the nodes *)


Lemma frames_trans p1 p2 p3 : frames p1 p2 → frames p2 p3 → frames p1 p3.
Proof.
  intros (Hm1 & Hc1 & ev1 & Ht1 & Hf1) (Hm2 & Hc2 & ev2 & Ht2 & Hf2).
  split; [congruence|]. split; [by etrans|].
  exists (ev1 ++ ev2). split; [by rewrite Ht2, Ht1, app_assoc|].
  by apply Forall_app.
Qed.

Lemma frames_emit e p : nodeEvent e → frames p (emit e p).
Proof.
  intros He. split; [done|]. split; [done|]. exists [e]. split; [done|].
  by constructor.
Qed.

Lemma frames_tick p : frames p (tick p).
Proof. split; [done|]. split; [done|]. exists []. by rewrite app_nil_r. Qed.


Lemma frames_call {A} e (service : nat → Res A) p :
  nodeEvent e → frames p (snd (call e service p)).
Proof.
  intros He. simpl. eapply frames_trans; [by apply frames_emit | apply frames_tick].
Qed.

Lemma frames_console_log l p : frames p (snd (console_log l p)).
Proof. by apply frames_emit. Qed.



Lemma frames_record e p : nodeEvent e → frames p (snd (record e p)).
Proof. intros. by apply frames_emit. Qed.




Lemma Forall_nodeEvent_WikiPage titles : Forall nodeEvent (WikiPage <$> titles).
Proof. induction titles; constructor; done. Qed.

Lemma Promise_all_pageText_frames env titles p :
  frames p (snd (Promise_all env (map (pageText env) titles) p)).
Proof.
  unfold Promise_all. rewrite startAll_pageText. simpl.
  split; [done|]. split; [done|]. eexists. split; [done|].
  apply Forall_nodeEvent_WikiPage.
Qed.





(** ** The runner *)

(** On the graph of the program the runner goes through the four nodes. *)
Lemma invoke_graph env inputs thread_id :
  invoke (graph env) inputs thread_id =
  (record (GraphInvoke thread_id inputs) ;;;
   saved <- getCheckpoint thread_id ;;
   let state := applyUpdate inputs (default noUpdate saved) in
   putCheckpoint thread_id state ;;;
   runStages thread_id (stages env) state).
Proof. reflexivity. Qed.

(** A run either completes every node or stops at the first that
    throws, in the process state that node left. *)
Lemma runStages_cons thread_id action rest state p :
  runStages thread_id (action :: rest) state p =
  match action state p with
  | (Ok update, p1) =>
      runStages thread_id rest (applyUpdate update state)
        (snd (putCheckpoint thread_id (applyUpdate update state) p1))
  | (Err e, p1) => (Err e, p1)
  end.
Proof. cbn [runStages]. unfold bind. by destruct (action state p) as [[?|?] ?]. Qed.


(** ** The handler *)

Lemma turn_runStages env question p :
  turn env question p =
  runStages 1 (stages env) (turnState question p) (turnStart question p).
Proof. reflexivity. Qed.

Lemma String_length_0 s : s ≠ "" → Nat.eqb (String.length s) 0 = false.
Proof. by destruct s. Qed.

(** A chunk that is neither the exit command nor blank runs one turn
    and prints its outcome, then the invitation to go on. *)
Lemma onData_question env data p :
  Js.toLowerCase (Js.trim data) ≠ "/bye" → Js.trim data ≠ "" →
  onData env data p =
  (Continue,
   emit (ConsoleLog AskAnotherQuestion)
     match turn env (Js.trim data) p with
     | (Ok result, p2) => emit (ConsoleLog (AnswerLine (answer result))) p2
     | (Err error, p2) => emit (ConsoleError (ErrorProcessingQuestion error)) p2
     end).
Proof.
  intros Hbye Hblank. unfold onData.
  apply String.eqb_neq in Hbye. rewrite Hbye, String_length_0 by done.
  reflexivity.
Qed.



(** ** The whole turn, the handler and the session frame the process *)




(** ** The cache in [retrieve] *)

Lemma retrieve_cached env state p vectorStore :
  embeddingCache p !! searchContent state = Some vectorStore →
  retrieve env state p =
  (match similaritySearch vectorStore (clock p) (question state) with
   | Ok retrievedDocs =>
       Ok {| question := None; context := Some retrievedDocs; searchTerm := None;
             searchContent := None; answer := None; previousQuestion := None |}
   | Err e => Err e
   end,
   tick (emit (SimilaritySearch (question state))
           (emit (ConsoleLog UsingCachedEmbeddings) p))).
Proof.
  intros Hget. unfold retrieve, bind, cache_get, console_log, call, ret.
  rewrite Hget. cbn [emit tick clock].
  by destruct (similaritySearch vectorStore (clock p) (question state)).
Qed.

Lemma retrieve_built env state p content vectorStore :
  searchContent state = Some content →
  embeddingCache p !! Some content = None →
  addDocuments env (clock p) (createDocuments env content) = Ok vectorStore →
  retrieve env state p =
  (match similaritySearch vectorStore (S (clock p)) (question state) with
   | Ok retrievedDocs =>
       Ok {| question := None; context := Some retrievedDocs; searchTerm := None;
             searchContent := None; answer := None; previousQuestion := None |}
   | Err e => Err e
   end,
   {| clock := S (S (clock p));
      trace := trace p ++ [ConsoleLog CreatingEmbeddings;
                           CreateEmbeddings (Some content);
                           AddDocuments (createDocuments env content);
                           ConsoleLog CreatedEmbeddings;
                           SimilaritySearch (question state)];
      embeddingCache := <[Some content := vectorStore]> (embeddingCache p);
      memory := memory p |}).
Proof.
  intros Hcontent Hget Hadd.
  unfold retrieve, createEmbeddings, bind, cache_get, cache_set, console_log, record,
    call, ret.
  rewrite Hcontent, Hget. cbn [emit tick clock trace embeddingCache memory].
  rewrite Hadd. cbn [emit tick clock trace embeddingCache memory].
  destruct (similaritySearch vectorStore (S (clock p)) (question state));
    unfold tick, emit; simpl; by rewrite <- !app_assoc.
Qed.

Lemma newEvents_app p p' events :
  trace p' = trace p ++ events → newEvents p p' = events.
Proof. intros H. unfold newEvents. rewrite H. by rewrite drop_app_length. Qed.

(** ** The reasoning step *)

Lemma search_run env state p :
  search env state p =
  (match llm_invoke env (clock p) (searchMessages state) with
   | Ok response =>
       match findWikiToolCall response with
       | None =>
           Ok {| question := None; context := None; searchTerm := Some "";
                 searchContent := None; answer := Some (content response);
                 previousQuestion := None |}
       | Some wikiToolCall =>
           Ok {| question := None; context := None;
                 searchTerm := Some (searchTerm_arg (args wikiToolCall));
                 searchContent := None; answer := Some (content response);
                 previousQuestion := question state |}
       end
   | Err e => Err e
   end,
   tick (emit (LlmInvoke (searchMessages state)) p)).
Proof.
  unfold search, bind, call, ret.
  destruct (llm_invoke env (clock p) (searchMessages state)) as [response|e]; [|done].
  by destruct (findWikiToolCall response).
Qed.

Lemma find_wikipedia_Some calls call :
  List.find (fun c => String.eqb (name c) "wikipedia") calls = Some call →
  ∃ before after, calls = before ++ call :: after
    ∧ name call = "wikipedia"
    ∧ Forall (fun c => name c ≠ "wikipedia") before.
Proof.
  induction calls as [|c calls IH]; simpl; [discriminate|].
  destruct (String.eqb (name c) "wikipedia") eqn:Hc.
  - intros [= ->]. exists [], calls. apply String.eqb_eq in Hc. by repeat split.
  - intros Hfind. destruct (IH Hfind) as (before & after & -> & Hname & Hbefore).
    exists (c :: before), after. apply String.eqb_neq in Hc.
    split; [done|]. split; [done|]. by constructor.
Qed.

Lemma find_wikipedia_None calls :
  List.find (fun c => String.eqb (name c) "wikipedia") calls = None ↔
  ∀ call, call ∈ calls → name call ≠ "wikipedia".
Proof.
  induction calls as [|c calls IH]; simpl.
  - split; [|done]. intros _ call Hin. by apply elem_of_nil in Hin.
  - destruct (String.eqb (name c) "wikipedia") eqn:Hc.
    + split; [discriminate|]. intros H. apply String.eqb_eq in Hc.
      exfalso. apply (H c); [by left | done].
    + apply String.eqb_neq in Hc. rewrite IH. split.
      * intros H call Hin. apply elem_of_cons in Hin as [->|Hin]; auto.
      * intros H call Hin. apply H. by right.
Qed.

Lemma searchMessages_cases state :
  ((∃ docs a, context state = Some docs ∧ answer state = Some a ∧ a ≠ "")
   ∧ searchMessages state
     = followUpPrompt (question state) (context state) (answer state)
         (previousQuestion state))
  ∨ (¬ (∃ docs a, context state = Some docs ∧ answer state = Some a ∧ a ≠ "")
     ∧ searchMessages state = startingPrompt (question state)).
Proof.
  unfold searchMessages, Js.truthy_array, Js.truthy_string.
  destruct (context state) as [docs|]; cbn [andb].
  - destruct (answer state) as [a|]; cbn [negb].
    + destruct (String.eqb a "") eqn:Ha; cbn [negb].
      * right. apply String.eqb_eq in Ha. split; [|done].
        intros (? & ? & _ & [= <-] & Hne). done.
      * left. apply String.eqb_neq in Ha. split; [|done]. by exists docs, a.
    + right. split; [|done]. intros (? & ? & _ & [=] & _).
  - right. split; [|done]. intros (? & ? & [=] & _).
Qed.

(** ** Counting entries into the graph *)

Lemma nodeEvents_invocations events :
  Forall nodeEvent events → invocations events = 0.
Proof.
  unfold invocations. induction 1 as [|e events He _ IH]; [done|].
  cbn [List.filter]. by destruct e.
Qed.

Lemma invocations_app l1 l2 : invocations (l1 ++ l2) = invocations l1 + invocations l2.
Proof. unfold invocations. by rewrite List.filter_app, length_app. Qed.

Lemma invocationsOn_app t l1 l2 :
  invocationsOn t (l1 ++ l2) = invocationsOn t l1 + invocationsOn t l2.
Proof. unfold invocationsOn. by rewrite List.filter_app, length_app. Qed.

Lemma invocationsOn_le t events : (invocationsOn t events ≤ invocations events)%nat.
Proof.
  unfold invocationsOn, invocations.
  induction events as [|e events IH]; [done|]. cbn [List.filter].
  destruct e; cbn [isInvokeOn isInvoke]; try done.
  case_bool_decide; cbn [length]; lia.
Qed.

(** ** The exit command *)

Ltac by_code_units c :=
  destruct c as [[] [] [] [] [] [] [] []]; vm_compute; intros H;
  try discriminate H; auto.

Lemma lowerUnit_slash c : Js.lowerUnit c = "/"%char → c = "/"%char.
Proof. by_code_units c. Qed.

Lemma lowerUnit_b c : Js.lowerUnit c = "b"%char → c = "b"%char ∨ c = "B"%char.
Proof. by_code_units c. Qed.

Lemma lowerUnit_y c : Js.lowerUnit c = "y"%char → c = "y"%char ∨ c = "Y"%char.
Proof. by_code_units c. Qed.

Lemma lowerUnit_e c : Js.lowerUnit c = "e"%char → c = "e"%char ∨ c = "E"%char.
Proof. by_code_units c. Qed.

Lemma toLowerCase_bye q : Js.toLowerCase q = "/bye" ↔ q ∈ byeSpellings.
Proof.
  split.
  - destruct q as [|c1 [|c2 [|c3 [|c4 [|c5 q]]]]]; try discriminate.
    cbn [Js.toLowerCase]. intros [= H1 H2 H3 H4].
    apply lowerUnit_slash in H1. apply lowerUnit_b in H2.
    apply lowerUnit_y in H3. apply lowerUnit_e in H4.
    subst c1. unfold byeSpellings.
    destruct H2 as [-> | ->], H3 as [-> | ->], H4 as [-> | ->];
      repeat (first [by left | right]).
  - unfold byeSpellings. intros Hin.
    repeat (apply elem_of_cons in Hin as [-> | Hin]; [reflexivity|]).
    by apply elem_of_nil in Hin.
Qed.

(** ** A turn whose reasoning step returns the empty search term *)

Lemma applyUpdate_self state : applyUpdate state state = state.
Proof.
  destruct state as [q c t s a pq]. unfold applyUpdate, orElse. cbn.
  by destruct q, c, t, s, a, pq.
Qed.

Lemma fetchWiki_skips env state p :
  searchTerm state = Some "" →
  fetchWiki env state p = (Ok state, emit (ConsoleLog AnsweringFromPreviousContext) p).
Proof. intros H. unfold fetchWiki. by rewrite H. Qed.

Lemma search_clock env state p update p1 :
  search env state p = (Ok update, p1) →
  p1 = tick (emit (LlmInvoke (searchMessages state)) p)
  ∧ question update = None ∧ context update = None ∧ searchContent update = None.
Proof.
  rewrite search_run. intros [= Hu <-]. split; [done|].
  destruct (llm_invoke env (clock p) (searchMessages state)) as [response|]; [|done].
  destruct (findWikiToolCall response); by injection Hu as <-.
Qed.

Lemma generate_run env state p docs :
  context state = Some docs →
  generate env state p =
  (match llm_invoke env (clock p)
           (prompt (question state) (Js.join Js.LF (pageContent <$> docs))) with
   | Ok response =>
       Ok {| question := None; context := None; searchTerm := None;
             searchContent := None; answer := Some (content response);
             previousQuestion := None |}
   | Err e => Err e
   end,
   tick (emit (LlmInvoke (prompt (question state)
                            (Js.join Js.LF (pageContent <$> docs)))) p)).
Proof.
  intros H. unfold generate, bind, call, ret. rewrite H.
  by destruct (llm_invoke env (clock p) _).
Qed.

Lemma retrieve_absent env state p :
  searchContent state = None →
  embeddingCache p !! None = None →
  retrieve env state p =
  (Err (TypeError "Cannot read properties of undefined (reading 'includes')"),
   emit (CreateEmbeddings None) (emit (ConsoleLog CreatingEmbeddings) p)).
Proof.
  intros Hc Hget. unfold retrieve, createEmbeddings, bind, cache_get, console_log,
    record, throw. by rewrite Hc, Hget.
Qed.

Lemma turnState_first question p :
  memory p !! 1%Z = None → turnState question p = inputsOf question.
Proof. intros H. unfold turnState. by rewrite H. Qed.

(** ** [previousQuestion] across turns *)

Lemma bind_Ok {A B} (m : M A) (k : A → M B) p b p' :
  bind m k p = (Ok b, p') → ∃ a p1, m p = (Ok a, p1) ∧ k a p1 = (Ok b, p').
Proof.
  unfold bind. destruct (m p) as [[a|e] p1]; [|discriminate].
  intros H. by exists a, p1.
Qed.











(** ** [Promise.all] when a promise rejects *)
Section PromiseAllRejects.
Context {A : Type}.
Implicit Types (outcomes : list (Res A)) (acc : Res (list (option A))).

Lemma foldl_settle_Err outcomes e order :
  foldl (settle outcomes) (Err e) order = Err e.
Proof. induction order as [|i order IH]; [done|]. exact IH. Qed.

Lemma settle_outcome outcomes values i :
  (∃ values', settle outcomes (Ok values) i = Ok values'
              ∧ ∀ e, outcomes !! i ≠ Some (Err e))
  ∨ (∃ e, settle outcomes (Ok values) i = Err e ∧ outcomes !! i = Some (Err e)).
Proof.
  unfold settle. destruct (outcomes !! i) as [[v|e]|] eqn:Hi.
  - left. eexists. split; [done|]. congruence.
  - right. by exists e.
  - left. eexists. split; [done|]. congruence.
Qed.

Lemma foldl_settle_rejects outcomes order i e : ∀ values,
  i ∈ order → outcomes !! i = Some (Err e) →
  ∃ j e', foldl (settle outcomes) (Ok values) order = Err e'
          ∧ j ∈ order ∧ outcomes !! j = Some (Err e').
Proof.
  induction order as [|k order IH]; intros values Hin Hi.
  - by apply elem_of_nil in Hin.
  - cbn [foldl].
    destruct (settle_outcome outcomes values k)
      as [(values' & -> & Hk) | (ek & -> & Hk)].
    + apply elem_of_cons in Hin as [-> | Hin]; [by destruct (Hk e)|].
      destruct (IH values' Hin Hi) as (j & e' & Hrun & Hj & Hje).
      exists j, e'. split; [done|]. split; [by right | done].
    + exists k, ek. rewrite foldl_settle_Err. split; [done|]. split; [by left | done].
Qed.

Lemma foldl_settle_Err_inv outcomes order : ∀ values e,
  foldl (settle outcomes) (Ok values) order = Err e →
  ∃ j, j ∈ order ∧ outcomes !! j = Some (Err e).
Proof.
  induction order as [|k order IH]; intros values e; cbn [foldl]; [discriminate|].
  destruct (settle_outcome outcomes values k)
    as [(values' & -> & Hk) | (ek & -> & Hk)].
  - intros H. destruct (IH _ _ H) as (j & Hj & Hje). exists j. split; [by right | done].
  - rewrite foldl_settle_Err. intros [= <-]. exists k. split; [by left | done].
Qed.

(** A rejected promise rejects the whole, with the error of a rejected
    promise, whatever the settling order. *)
Lemma settleAll_rejected order outcomes i e :
  outcomes !! i = Some (Err e) →
  ∃ j e', settleAll order outcomes = Err e' ∧ outcomes !! j = Some (Err e').
Proof.
  intros Hi. unfold settleAll.
  destruct (foldl_settle_rejects outcomes (order ++ seq 0 (length outcomes)) i e
              (replicate (length outcomes) None))
    as (j & e' & -> & _ & Hj); [|done|by exists j, e'].
  apply elem_of_app. right. apply elem_of_seq.
  apply lookup_lt_Some in Hi. lia.
Qed.

Lemma outcomes_all_or_one outcomes :
  (∃ vs, outcomes = Ok <$> vs) ∨ (∃ i e, outcomes !! i = Some (Err e)).
Proof.
  induction outcomes as [|[v|e] outcomes IH].
  - left. by exists [].
  - destruct IH as [[vs ->] | (i & e & Hi)].
    + left. by exists (v :: vs).
    + right. by exists (S i), e.
  - right. by exists 0, e.
Qed.

(** The whole fulfils only when every promise does. *)
Lemma settleAll_Ok_inv order outcomes vs :
  settleAll order outcomes = Ok vs → outcomes = Ok <$> vs.
Proof.
  intros H. destruct (outcomes_all_or_one outcomes) as [[vs' ->] | (i & e & Hi)].
  - rewrite settleAll_fulfilled in H. by injection H as ->.
  - destruct (settleAll_rejected order outcomes i e Hi) as (j & e' & H' & _).
    congruence.
Qed.
End PromiseAllRejects.

(** ** The Content Fetcher in full *)

Lemma getWikiPageContent_run env searchTerm p :
  getWikiPageContent env searchTerm p =
  match wiki_search env (clock p) searchTerm with
  | Err e =>
      (Err e, tick (emit (WikiSearch searchTerm)
                      (emit (ConsoleLog (SearchingWikipediaFor searchTerm)) p)))
  | Ok found =>
      let titles := take MAX_SEARCH_RESULTS (wiki.title <$> wiki.results found) in
      let p2 := {| clock := S (clock p) + length titles;
                   trace := trace p
                            ++ [ConsoleLog (SearchingWikipediaFor searchTerm);
                                WikiSearch searchTerm]
                            ++ (WikiPage <$> titles);
                   embeddingCache := embeddingCache p; memory := memory p |} in
      match settleAll (settleOrder env (clock p2))
                      (pageOutcomes env (S (clock p)) titles) with
      | Ok contents =>
          (Ok (Js.join Js.LF contents),
           emit (ConsoleLog (WikipediaSearchComplete (Js.join ", " titles))) p2)
      | Err e => (Err e, p2)
      end
  end.
Proof.
  unfold getWikiPageContent, bind, console_log, call, Promise_all. cbn [emit tick clock].
  destruct (wiki_search env (clock p) searchTerm) as [found|e]; [|done].
  rewrite <- fmap_take. unfold Js.slice0.
  change (map wiki.title (take MAX_SEARCH_RESULTS (wiki.results found)))
    with (wiki.title <$> take MAX_SEARCH_RESULTS (wiki.results found)).
  generalize (wiki.title <$> take MAX_SEARCH_RESULTS (wiki.results found)).
  intros titles. rewrite startAll_pageText. cbn [clock trace embeddingCache memory].
  cbv zeta. unfold tick, emit, ret. simpl. rewrite <- !app_assoc. simpl.
  by destruct (settleAll _ _).
Qed.

(** ** Nodes that leave the cache and the checkpoints alone *)

Lemma sameStores_refl p : sameStores p p.
Proof. done. Qed.

Lemma sameStores_trans p1 p2 p3 : sameStores p1 p2 → sameStores p2 p3 → sameStores p1 p3.
Proof. intros [? ?] [? ?]. split; congruence. Qed.

Lemma sameStores_bind {A B} (m : M A) (k : A → M B) p :
  sameStores p (snd (m p)) →
  (∀ a p1, sameStores p1 (snd (k a p1))) →
  sameStores p (snd (bind m k p)).
Proof.
  intros Hm Hk. unfold bind. destruct (m p) as [[a|e] p1]; cbn [snd] in *; [|done].
  eapply sameStores_trans; [exact Hm | apply Hk].
Qed.

Lemma sameStores_call {A} e (service : nat → Res A) p : sameStores p (snd (call e service p)).
Proof. done. Qed.

Lemma sameStores_console_log l p : sameStores p (snd (console_log l p)).
Proof. done. Qed.

Lemma search_sameStores env state p : sameStores p (snd (search env state p)).
Proof. by rewrite search_run. Qed.

Lemma generate_sameStores env state p : sameStores p (snd (generate env state p)).
Proof.
  unfold generate. destruct (context state); [|done].
  apply sameStores_bind; [done|]. by intros.
Qed.

Lemma getWikiPageContent_sameStores env searchTerm p :
  sameStores p (snd (getWikiPageContent env searchTerm p)).
Proof.
  rewrite getWikiPageContent_run.
  destruct (wiki_search env (clock p) searchTerm); [|done].
  cbv zeta. by destruct (settleAll _ _).
Qed.

Lemma fetchWiki_sameStores env state p : sameStores p (snd (fetchWiki env state p)).
Proof.
  unfold fetchWiki. destruct (searchTerm state) as [term|]; [|done].
  destruct (String.eqb term ""); [done|].
  apply sameStores_bind; [done|]. intros _ p1.
  apply sameStores_bind; [apply getWikiPageContent_sameStores|]. by intros.
Qed.

(** [retrieve] leaves the cache as it is or adds one entry, under the
    text it was given; it never touches the checkpoints. *)
Lemma retrieve_stores env state p :
  memory (snd (retrieve env state p)) = memory p
  ∧ (embeddingCache (snd (retrieve env state p)) = embeddingCache p
     ∨ ∃ text vectorStore,
         searchContent state = Some text
         ∧ embeddingCache p !! Some text = None
         ∧ addDocuments env (clock p) (createDocuments env text) = Ok vectorStore
         ∧ embeddingCache (snd (retrieve env state p))
           = <[Some text := vectorStore]> (embeddingCache p)).
Proof.
  destruct (embeddingCache p !! searchContent state) as [vectorStore|] eqn:Hget.
  - rewrite (retrieve_cached env state p vectorStore Hget). by split; [|left].
  - destruct (searchContent state) as [text|] eqn:Hc.
    + destruct (addDocuments env (clock p) (createDocuments env text))
        as [vectorStore|e] eqn:Hadd.
      * rewrite (retrieve_built env state p text vectorStore Hc Hget Hadd).
        split; [done|]. right. by exists text, vectorStore.
      * unfold retrieve, createEmbeddings, bind, cache_get, console_log, record, call.
        rewrite Hc, Hget. cbn [emit tick clock]. rewrite Hadd. by split; [|left].
    + rewrite (retrieve_absent env state p Hc Hget). by split; [|left].
Qed.

(** A property of the process that holds however a run of nodes ends,
    as long as every node and every checkpoint keeps it. *)
Lemma runStages_invariant (Q : Proc → Prop) thread_id actions :
  (∀ state p, Q p → Q (snd (putCheckpoint thread_id state p))) →
  (∀ action state p, action ∈ actions → Q p → Q (snd (action state p))) →
  ∀ state p, Q p → Q (snd (runStages thread_id actions state p)).
Proof.
  intros Hput. induction actions as [|action rest IH]; intros Hnodes state p Hp; [done|].
  rewrite runStages_cons.
  pose proof (Hnodes action state p ltac:(left) Hp) as H1.
  destruct (action state p) as [[update|e] p1]; cbn [snd] in H1; [|done].
  apply IH; [|by apply Hput]. intros a st q Hin. apply Hnodes. by right.
Qed.

Lemma sameStores_tidyStores env p q : sameStores p q → tidyStores env p → tidyStores env q.
Proof. intros [Hc Hm] (H1 & H2 & H3). unfold tidyStores. by rewrite Hc, Hm. Qed.

Lemma stages_tidyStores env action state p :
  action ∈ stages env → tidyStores env p → tidyStores env (snd (action state p)).
Proof.
  unfold stages. intros Hin Hp.
  repeat (apply elem_of_cons in Hin as [->|Hin]).
  - eapply sameStores_tidyStores; [apply search_sameStores | done].
  - eapply sameStores_tidyStores; [apply fetchWiki_sameStores | done].
  - destruct Hp as (H1 & H2 & H3).
    destruct (retrieve_stores env state p) as [Hm [Hc | (text & vs & _ & _ & Hadd & Hc)]];
      unfold tidyStores; rewrite Hc, Hm; [done|].
    split; [by rewrite lookup_insert_ne|]. split; [|done].
    intros text' vs' Hget. destruct (decide (text = text')) as [->|Hne].
    + rewrite lookup_insert_eq in Hget. injection Hget as <-. by eexists.
    + rewrite lookup_insert_ne in Hget by congruence. by apply H2.
  - eapply sameStores_tidyStores; [apply generate_sameStores | done].
  - by apply elem_of_nil in Hin.
Qed.

Lemma putCheckpoint_tidyStores env state p :
  tidyStores env p → tidyStores env (snd (putCheckpoint 1 state p)).
Proof.
  intros (H1 & H2 & H3). split; [done|]. split; [done|]. intros t Ht. cbn.
  rewrite lookup_insert_ne by done. by apply H3.
Qed.

Lemma turn_tidyStores env question p :
  tidyStores env p → tidyStores env (snd (turn env question p)).
Proof.
  intros Hp. rewrite turn_runStages.
  apply (runStages_invariant (tidyStores env)).
  - intros. by apply putCheckpoint_tidyStores.
  - intros. by apply (stages_tidyStores env).
  - unfold turnStart. by apply putCheckpoint_tidyStores.
Qed.

Lemma onData_tidyStores env data p :
  tidyStores env p → tidyStores env (snd (onData env data p)).
Proof.
  intros Hp. unfold onData.
  destruct (String.eqb _ "/bye"); [done|].
  destruct (Nat.eqb _ 0); [done|].
  fold (inputsOf (Js.trim data)). fold (turn env (Js.trim data) p).
  pose proof (turn_tidyStores env (Js.trim data) p Hp) as H.
  by destruct (turn env (Js.trim data) p) as [[?|?] ?].
Qed.

Lemma session_tidyStores env input : ∀ p,
  tidyStores env p → tidyStores env (snd (session env input p)).
Proof.
  induction input as [|data rest IH]; intros p Hp; cbn [session]; [done|].
  pose proof (onData_tidyStores env data p Hp) as H1.
  destruct (onData env data p) as [[|code] p1]; cbn [snd] in *; [by apply IH | done].
Qed.

(** ** A session in which no search is ever asked for *)

Lemma turnState_searchContent question p :
  searchContent (turnState question p) = savedSearchContent p.
Proof.
  unfold turnState, savedSearchContent, applyUpdate. cbn.
  by destruct (memory p !! 1%Z).
Qed.

Lemma turnState_searchContent_None question p :
  savedSearchContent p = None → searchContent (turnState question p) = None.
Proof. intros H. by rewrite turnState_searchContent. Qed.

Lemma answerLines_app l1 l2 : answerLines (l1 ++ l2) = answerLines l1 ++ answerLines l2.
Proof. apply List.filter_app. Qed.

(** With no fetched text in the state and no search asked for, the
    turn throws: in the reasoning step, or else in [retrieve]. *)
Lemma turn_without_search env question p :
  neverSearches env →
  savedSearchContent p = None →
  embeddingCache p !! None = None →
  ∃ e p2 events,
    turn env question p = (Err e, p2)
    ∧ trace p2 = trace p ++ events
    ∧ answerLines events = []
    ∧ savedSearchContent p2 = None
    ∧ embeddingCache p2 = embeddingCache p.
Proof.
  intros Hnever Hsaved Hcache.
  assert (∀ update, searchContent update = None →
            searchContent (applyUpdate update (turnState question p)) = None) as Hkeep.
  { intros update Hu. unfold applyUpdate. cbn [searchContent].
    by rewrite Hu, turnState_searchContent. }
  assert (∀ state q, searchContent state = None →
            savedSearchContent (snd (putCheckpoint 1 state q)) = None) as Hput.
  { intros state q Hs. unfold savedSearchContent. cbn [putCheckpoint snd memory].
    by rewrite lookup_insert_eq. }
  rewrite turn_runStages. unfold stages. rewrite runStages_cons, search_run.
  change (clock (turnStart question p)) with (clock p).
  destruct (llm_invoke env (clock p) (searchMessages (turnState question p)))
    as [response|e] eqn:Hllm.
  - rewrite (Hnever _ _ _ Hllm).
    set (state1 := applyUpdate _ (turnState question p)).
    assert (searchContent state1 = None) as Hs1 by (by apply Hkeep).
    rewrite runStages_cons, fetchWiki_skips by done.
    rewrite applyUpdate_self.
    rewrite runStages_cons, retrieve_absent by done.
    eexists _, _, _. split; [reflexivity|].
    cbn [putCheckpoint snd emit tick trace memory embeddingCache].
    split; [unfold turnStart; cbn; by rewrite <- !app_assoc|].
    split; [done|]. split; [|done].
    unfold savedSearchContent. cbn [emit tick putCheckpoint snd memory].
    by rewrite lookup_insert_eq.
  - eexists _, _, _. split; [reflexivity|].
    cbn [putCheckpoint snd emit tick trace memory embeddingCache].
    split; [unfold turnStart; cbn; by rewrite <- !app_assoc|].
    split; [done|]. split; [|done].
    unfold savedSearchContent, turnStart. cbn [putCheckpoint snd emit tick memory].
    rewrite lookup_insert_eq. change (searchContent (turnState question p) = None).
    by apply turnState_searchContent_None.
Qed.

Lemma onData_without_search env data p :
  neverSearches env →
  savedSearchContent p = None →
  embeddingCache p !! None = None →
  let p' := snd (onData env data p) in
  answerLines (trace p') = answerLines (trace p)
  ∧ savedSearchContent p' = None
  ∧ embeddingCache p' !! None = None.
Proof.
  intros Hnever Hsaved Hcache p'. subst p'.
  destruct (decide (Js.toLowerCase (Js.trim data) = "/bye")) as [Hbye|Hbye].
  { unfold onData. apply String.eqb_eq in Hbye. rewrite Hbye. cbn.
    by rewrite !answerLines_app, !app_nil_r. }
  destruct (decide (Js.trim data = "")) as [Hblank|Hblank].
  { unfold onData. apply String.eqb_neq in Hbye. by rewrite Hbye, Hblank. }
  rewrite (onData_question env data p Hbye Hblank).
  destruct (turn_without_search env (Js.trim data) p Hnever Hsaved Hcache)
    as (e & p2 & events & -> & Htrace & Hans & Hsaved2 & Hcache2).
  cbn. rewrite Htrace, !answerLines_app, Hans, !app_nil_r.
  split; [done|]. split; [exact Hsaved2 | by rewrite Hcache2].
Qed.

(** ** What the handler returns *)

Lemma onData_signal env data p :
  (Js.trim data ∈ byeSpellings
   ∧ onData env data p = (Exited 0, emit (ProcessExit 0) (emit (ConsoleLog Goodbye) p)))
  ∨ (notBye data ∧ fst (onData env data p) = Continue).
Proof.
  destruct (decide (Js.toLowerCase (Js.trim data) = "/bye")) as [Hbye|Hbye].
  - left. split; [by apply toLowerCase_bye|].
    unfold onData. apply String.eqb_eq in Hbye. by rewrite Hbye.
  - right. split; [unfold notBye; by rewrite <- toLowerCase_bye|].
    unfold onData. apply String.eqb_neq in Hbye. rewrite Hbye.
    by destruct (Nat.eqb _ 0).
Qed.

Lemma session_app env before : ∀ after p,
  fst (session env before p) = Continue →
  session env (before ++ after) p = session env after (snd (session env before p)).
Proof.
  induction before as [|data before IH]; intros after p; cbn [session app]; [done|].
  destruct (onData env data p) as [[|code] p1]; [apply IH | discriminate].
Qed.

Lemma session_outcome env input : ∀ p,
  (fst (session env input p) = Continue ∧ Forall notBye input)
  ∨ (∃ before data after,
       input = before ++ data :: after
       ∧ Forall notBye before
       ∧ Js.trim data ∈ byeSpellings
       ∧ fst (session env before p) = Continue
       ∧ session env input p
         = (Exited 0, emit (ProcessExit 0)
                        (emit (ConsoleLog Goodbye) (snd (session env before p))))).
Proof.
  induction input as [|data rest IH]; intros p.
  - left. by split.
  - cbn [session]. destruct (onData_signal env data p) as [[Hbye Hrun] | [Hnot Hcont]].
    + right. exists [], data, rest. rewrite Hrun. by repeat split.
    + destruct (onData env data p) as [signal p1] eqn:Hrun. cbn [fst] in Hcont. subst signal.
      destruct (IH p1) as [[Hc Hall] | (before & d & after & -> & Hall & Hbye & Hc & Hexit)].
      * left. split; [done | by constructor].
      * right. exists (data :: before), d, after. cbn [app session]. rewrite Hrun.
        split; [done|]. split; [by constructor|]. by repeat split.
Qed.

(** ** What each node writes *)

Lemma fetchWiki_update env state p update p1 :
  fetchWiki env state p = (Ok update, p1) →
  question (applyUpdate update state) = question state
  ∧ context (applyUpdate update state) = context state
  ∧ searchTerm (applyUpdate update state) = searchTerm state
  ∧ answer (applyUpdate update state) = answer state.
Proof.
  unfold fetchWiki. destruct (searchTerm state) as [term|] eqn:Hterm.
  - destruct (String.eqb term "").
    + intros H. apply bind_Ok in H as (? & ? & _ & [= <- _]). by rewrite applyUpdate_self.
    + intros H. apply bind_Ok in H as (? & ? & _ & H).
      apply bind_Ok in H as (wikiContent & ? & _ & [= <- _]).
      unfold applyUpdate. cbn. by rewrite Hterm.
  - intros H. apply bind_Ok in H as (? & ? & _ & [= <- _]). by rewrite applyUpdate_self.
Qed.

Lemma retrieve_update env state p update p1 :
  retrieve env state p = (Ok update, p1) →
  ∃ retrievedDocs,
    update = {| question := None; context := Some retrievedDocs; searchTerm := None;
                searchContent := None; answer := None; previousQuestion := None |}.
Proof.
  intros H. unfold retrieve in H.
  apply bind_Ok in H as (cached & ? & _ & H).
  apply bind_Ok in H as (vectorStore & ? & _ & H).
  apply bind_Ok in H as (retrievedDocs & ? & _ & [= <- _]). by exists retrievedDocs.
Qed.

Lemma fetchWiki_fetches env state p term :
  searchTerm state = Some term → term ≠ "" →
  fetchWiki env state p =
  match getWikiPageContent env term
          (emit (ConsoleLog (FetchingWikipediaContentFor (Some term))) p) with
  | (Ok wikiContent, p') =>
      (Ok {| question := None; context := None; searchTerm := None;
             searchContent := Some wikiContent; answer := None;
             previousQuestion := None |}, p')
  | (Err e, p') => (Err e, p')
  end.
Proof.
  intros Hterm Hne. unfold fetchWiki. rewrite Hterm.
  apply String.eqb_neq in Hne. rewrite Hne. unfold bind, console_log, ret.
  by destruct (getWikiPageContent env term _) as [[?|?] ?].
Qed.

(** ** The calls of a turn *)

Lemma calls_app s l1 l2 : calls s (l1 ++ l2) = calls s l1 + calls s l2.
Proof. unfold calls. by rewrite List.filter_app, length_app. Qed.

Lemma calls_WikiPage s titles :
  calls s (WikiPage <$> titles) <= match s with PageRequest => length titles | _ => 0 end.
Proof.
  unfold calls. induction titles as [|title titles IH]; [by destruct s|].
  destruct s; cbn in *; lia.
Qed.

Lemma spends_refl p : spends noCalls p p.
Proof. exists []. by rewrite app_nil_r. Qed.

Lemma spends_trans b1 b2 p1 p2 p3 :
  spends b1 p1 p2 → spends b2 p2 p3 → spends (addBudgets b1 b2) p1 p3.
Proof.
  intros (ev1 & Ht1 & Hb1) (ev2 & Ht2 & Hb2). exists (ev1 ++ ev2).
  split; [by rewrite Ht2, Ht1, app_assoc|].
  intros s. rewrite calls_app. unfold addBudgets. specialize (Hb1 s). specialize (Hb2 s). lia.
Qed.

Lemma spends_weaken b b' p p' : (∀ s, b s <= b' s) → spends b p p' → spends b' p p'.
Proof.
  intros Hle (ev & Ht & Hb). exists ev. split; [done|].
  intros s. specialize (Hb s). specialize (Hle s). lia.
Qed.

Lemma spends_putCheckpoint thread_id state p :
  spends noCalls p (snd (putCheckpoint thread_id state p)).
Proof. exists []. cbn. by rewrite app_nil_r. Qed.

Ltac spent :=
  eexists; split;
  [ cbn [snd emit tick trace]; rewrite <- ?app_assoc; reflexivity
  | intros []; cbn; lia ].

Lemma search_spends env state p : spends searchBudget p (snd (search env state p)).
Proof. rewrite search_run. spent. Qed.

Lemma generate_spends env state p : spends generateBudget p (snd (generate env state p)).
Proof.
  destruct (context state) as [docs|] eqn:Hc.
  - rewrite (generate_run env state p docs Hc). spent.
  - unfold generate. rewrite Hc. exists []. split; [by rewrite app_nil_r | intros []; cbn; lia].
Qed.

Lemma retrieve_spends env state p : spends retrieveBudget p (snd (retrieve env state p)).
Proof.
  destruct (embeddingCache p !! searchContent state) as [vectorStore|] eqn:Hget.
  - rewrite (retrieve_cached env state p vectorStore Hget). spent.
  - destruct (searchContent state) as [text|] eqn:Hc.
    + destruct (addDocuments env (clock p) (createDocuments env text))
        as [vectorStore|e] eqn:Hadd.
      * rewrite (retrieve_built env state p text vectorStore Hc Hget Hadd). spent.
      * unfold retrieve, createEmbeddings, bind, cache_get, console_log, record, call.
        rewrite Hc, Hget. cbn [emit tick clock]. rewrite Hadd. spent.
    + rewrite (retrieve_absent env state p Hc Hget). spent.
Qed.

Lemma getWikiPageContent_spends env searchTerm p :
  spends fetchWikiBudget p (snd (getWikiPageContent env searchTerm p)).
Proof.
  rewrite getWikiPageContent_run.
  destruct (wiki_search env (clock p) searchTerm) as [found|e]; [|spent].
  cbv zeta.
  assert (length (take MAX_SEARCH_RESULTS (wiki.title <$> wiki.results found)) <= 3)
    as Hlen by (rewrite length_take; unfold MAX_SEARCH_RESULTS; lia).
  revert Hlen. generalize (take MAX_SEARCH_RESULTS (wiki.title <$> wiki.results found)).
  intros titles Hlen.
  assert (forall s, calls s (WikiPage <$> titles)
                    <= match s with PageRequest => 3 | _ => 0 end) as Hpages.
  { intros s. etrans; [apply calls_WikiPage|]. by destruct s. }
  assert (forall s rest,
            calls s (ConsoleLog (SearchingWikipediaFor searchTerm)
                     :: WikiSearch searchTerm :: (WikiPage <$> titles)) + calls s rest
            <= fetchWikiBudget s + calls s rest) as Hsum.
  { intros s rest. specialize (Hpages s).
    change (ConsoleLog (SearchingWikipediaFor searchTerm)
            :: WikiSearch searchTerm :: (WikiPage <$> titles))
      with ([ConsoleLog (SearchingWikipediaFor searchTerm); WikiSearch searchTerm]
            ++ (WikiPage <$> titles)).
    rewrite calls_app. revert Hpages. generalize (calls s (WikiPage <$> titles)).
    intros n Hn. destruct s; cbn in *; lia. }
  destruct (settleAll _ _); unfold emit; simpl.
  - eexists. split; [rewrite <- ?app_assoc; reflexivity|].
    intros s. rewrite !calls_app. etrans; [apply Hsum|]. destruct s; cbn; lia.
  - eexists. split; [reflexivity|].
    intros s. specialize (Hsum s []). cbn in Hsum. cbn. lia.
Qed.

Lemma fetchWiki_spends env state p : spends fetchWikiBudget p (snd (fetchWiki env state p)).
Proof.
  unfold fetchWiki. destruct (searchTerm state) as [term|]; [|spent].
  destruct (String.eqb term ""); [spent|].
  unfold bind at 1, console_log.
  destruct (getWikiPageContent_spends env term
              (emit (ConsoleLog (FetchingWikipediaContentFor (Some term))) p))
    as (events & Ht & Hb).
  exists (ConsoleLog (FetchingWikipediaContentFor (Some term)) :: events). split.
  - unfold bind, ret.
    destruct (getWikiPageContent env term _) as [[?|?] ?]; cbn [snd] in *;
      rewrite Ht; cbn; by rewrite <- app_assoc.
  - intros s. specialize (Hb s).
    change (calls s ([ConsoleLog (FetchingWikipediaContentFor (Some term))] ++ events)
            <= fetchWikiBudget s).
    rewrite calls_app. revert Hb. generalize (calls s events). intros n Hn.
    destruct s; cbn in *; lia.
Qed.

Lemma runStages_spends thread_id actions budgets :
  Forall2 (fun action budget => forall state p, spends budget p (snd (action state p)))
          actions budgets ->
  forall state p,
    spends (foldr addBudgets noCalls budgets) p (snd (runStages thread_id actions state p)).
Proof.
  induction 1 as [|action budget actions budgets Hnode _ IH]; intros state p.
  - apply spends_refl.
  - rewrite runStages_cons. specialize (Hnode state p).
    destruct (action state p) as [[update|e] p1]; cbn [snd foldr] in *.
    + eapply spends_weaken; [|eapply spends_trans; [exact Hnode|];
                               eapply spends_trans; [apply spends_putCheckpoint | apply IH]].
      intros s. unfold addBudgets, noCalls. lia.
    + eapply spends_weaken; [|exact Hnode]. intros s. unfold addBudgets. lia.
Qed.

Lemma turn_spends env question p : spends perTurn p (snd (turn env question p)).
Proof.
  rewrite turn_runStages.
  assert (spends noCalls p (turnStart question p)) as Hstart.
  { exists [ConsoleLog Thinking; GraphInvoke 1 (inputsOf question)].
    split; [cbn; by rewrite <- app_assoc | by intros []]. }
  eapply spends_weaken;
    [|eapply spends_trans;
       [exact Hstart
       |apply (runStages_spends 1 (stages env)
                 [searchBudget; fetchWikiBudget; retrieveBudget; generateBudget])]].
  - intros []; unfold addBudgets, noCalls; cbn; unfold addBudgets, noCalls; cbn; lia.
  - unfold stages. repeat constructor.
    + apply search_spends.
    + apply fetchWiki_spends.
    + apply retrieve_spends.
    + apply generate_spends.
Qed.

Lemma onData_spends env data p : spends perTurn p (snd (onData env data p)).
Proof.
  destruct (decide (Js.toLowerCase (Js.trim data) = "/bye")) as [Hbye|Hbye].
  { unfold onData. apply String.eqb_eq in Hbye. rewrite Hbye.
    eexists. split; [cbn; rewrite <- app_assoc; reflexivity | intros []; cbn; lia]. }
  destruct (decide (Js.trim data = "")) as [Hblank|Hblank].
  { unfold onData. apply String.eqb_neq in Hbye. rewrite Hbye, Hblank.
    eapply spends_weaken; [|apply spends_refl]. intros s. unfold noCalls. lia. }
  rewrite (onData_question env data p Hbye Hblank).
  destruct (turn_spends env (Js.trim data) p) as (events & Ht & Hb).
  destruct (turn env (Js.trim data) p) as [[result|e] p2]; cbn [snd emit trace] in *.
  - exists (events ++ [ConsoleLog (AnswerLine (answer result)); ConsoleLog AskAnotherQuestion]).
    split; [cbn; by rewrite Ht, <- !app_assoc|].
    intros s. rewrite calls_app. specialize (Hb s). revert Hb.
    generalize (calls s events). intros n Hn. destruct s; cbn in *; lia.
  - exists (events ++ [ConsoleError (ErrorProcessingQuestion e); ConsoleLog AskAnotherQuestion]).
    split; [cbn; by rewrite Ht, <- !app_assoc|].
    intros s. rewrite calls_app. specialize (Hb s). revert Hb.
    generalize (calls s events). intros n Hn. destruct s; cbn in *; lia.
Qed.

Lemma session_spends env input : forall p,
  spends (fun s => length input * perTurn s) p (snd (session env input p)).
Proof.
  induction input as [|data rest IH]; intros p; cbn [session].
  - eapply spends_weaken; [|apply spends_refl]. intros s. unfold noCalls. lia.
  - pose proof (onData_spends env data p) as H1.
    destruct (onData env data p) as [[|code] p1]; cbn [snd] in *.
    + eapply spends_weaken; [|eapply spends_trans; [exact H1 | apply IH]].
      intros s. unfold addBudgets. cbn [length]. lia.
    + eapply spends_weaken; [|exact H1]. intros s. cbn [length]. lia.
Qed.

(** The budget is reached: the first question of the README's session. *)
Example calls_per_turn_reached (s : Service) :
  calls s (newEvents started (snd (onData Sample.healthy "Who is Batman?" started)))
  = perTurn s.
Proof. destruct s; vm_compute; reflexivity. Qed.

(** ** The settling order when every page loads *)

Lemma pagesLoad_outcomes env titles :
  pagesLoad env → ∀ t, ∃ texts, pageOutcomes env t titles = Ok <$> texts.
Proof.
  intros Hload. induction titles as [|title titles IH]; intros t.
  - by exists [].
  - destruct (Hload t title) as [text Htext]. destruct (IH (S t)) as [texts Htexts].
    exists (text :: texts). cbn. by rewrite Htext, Htexts.
Qed.

Lemma getWikiPageContent_any_order env order searchTerm p :
  pagesLoad env →
  getWikiPageContent (withSettleOrder order env) searchTerm p
  = getWikiPageContent env searchTerm p.
Proof.
  intros Hload. rewrite !getWikiPageContent_run.
  change (wiki_search (withSettleOrder order env)) with (wiki_search env).
  destruct (wiki_search env (clock p) searchTerm) as [found|e]; [|done].
  cbv zeta. rewrite pageOutcomes_withSettleOrder.
  destruct (pagesLoad_outcomes env
              (take MAX_SEARCH_RESULTS (wiki.title <$> wiki.results found)) Hload
              (S (clock p))) as [texts ->].
  by rewrite !settleAll_fulfilled.
Qed.

Lemma fetchWiki_any_order env order state p :
  pagesLoad env →
  fetchWiki (withSettleOrder order env) state p = fetchWiki env state p.
Proof.
  intros Hload. unfold fetchWiki. destruct (searchTerm state) as [term|]; [|done].
  destruct (String.eqb term ""); [done|].
  unfold bind, console_log. by rewrite getWikiPageContent_any_order.
Qed.

Lemma runStages_ext thread_id actions1 actions2 :
  Forall2 (fun a1 a2 => ∀ state p, a1 state p = a2 state p) actions1 actions2 →
  ∀ state p, runStages thread_id actions1 state p = runStages thread_id actions2 state p.
Proof.
  induction 1 as [|a1 a2 rest1 rest2 Ha _ IH]; intros state p; [done|].
  rewrite !runStages_cons, Ha. destruct (a2 state p) as [[update|e] p1]; [apply IH | done].
Qed.

Lemma turn_any_order env order question p :
  pagesLoad env → turn (withSettleOrder order env) question p = turn env question p.
Proof.
  intros Hload. rewrite !turn_runStages. apply runStages_ext. unfold stages.
  constructor; [done|]. constructor; [intros; by apply fetchWiki_any_order|].
  constructor; [done|]. constructor; [done|]. constructor.
Qed.

Lemma onData_exit env data p :
  Js.toLowerCase (Js.trim data) = "/bye" →
  onData env data p = (Exited 0, emit (ProcessExit 0) (emit (ConsoleLog Goodbye) p)).
Proof. intros H. unfold onData. apply String.eqb_eq in H. by rewrite H. Qed.

Lemma onData_blank env data p : Js.trim data = "" → onData env data p = (Continue, p).
Proof. intros H. unfold onData. by rewrite H. Qed.

Lemma onData_any_order env order data p :
  pagesLoad env → onData (withSettleOrder order env) data p = onData env data p.
Proof.
  intros Hload.
  destruct (decide (Js.toLowerCase (Js.trim data) = "/bye")) as [Hbye|Hbye].
  { by rewrite !(onData_exit _ data p Hbye). }
  destruct (decide (Js.trim data = "")) as [Hblank|Hblank].
  { by rewrite !(onData_blank _ data p Hblank). }
  by rewrite !(onData_question _ data p Hbye Hblank), turn_any_order.
Qed.

(** ** Where the error of a turn comes from *)

Lemma settleAll_Err_inv {A} order (outcomes : list (Res A)) e :
  settleAll order outcomes = Err e → ∃ j, outcomes !! j = Some (Err e).
Proof.
  unfold settleAll.
  destruct (foldl _ _ _) as [values|e'] eqn:Hfold; [discriminate|].
  intros [= ->]. destruct (foldl_settle_Err_inv _ _ _ _ Hfold) as (j & _ & Hj).
  by exists j.
Qed.

Lemma pageOutcomes_lookup env titles : ∀ t j r,
  pageOutcomes env t titles !! j = Some r →
  ∃ title, titles !! j = Some title ∧ r = pageOutcome env (t + j) title.
Proof.
  induction titles as [|title titles IH]; intros t j r; [done|].
  destruct j as [|j]; cbn.
  - intros [= <-]. exists title. by rewrite Nat.add_0_r.
  - intros H. destruct (IH (S t) j r H) as (title' & Ht & ->).
    exists title'. split; [done|]. f_equal. lia.
Qed.


(** ** [trim] *)

Lemma append_String c l x : String c l +:+ x = String c (l +:+ x).
Proof. reflexivity. Qed.

Lemma append_empty x : "" +:+ x = x.
Proof. reflexivity. Qed.

Lemma append_empty_r x : x +:+ "" = x.
Proof. induction x as [|c x IH]; [done|]. by rewrite append_String, IH. Qed.

Lemma append_assoc x y z : (x +:+ y) +:+ z = x +:+ (y +:+ z).
Proof. induction x as [|c x IH]; [done|]. by rewrite !append_String, IH. Qed.

Lemma append_length x y : String.length (x +:+ y) = String.length x + String.length y.
Proof.
  induction x as [|c x IH]; [done|]. rewrite append_String. cbn [String.length].
  by rewrite IH.
Qed.

Lemma isWhiteSpace_elem w : Js.isWhiteSpace w = true ↔ w ∈ Js.whiteSpace.
Proof.
  unfold Js.isWhiteSpace. rewrite existsb_exists. split.
  - intros (x & Hin & Heq). apply String.eqb_eq in Heq. subst x.
    by apply list_elem_of_In.
  - intros Hin. exists w. split; [by apply list_elem_of_In | apply String.eqb_refl].
Qed.

(** Every white-space character is one to three bytes long, and the
    bytes it starts with are no white-space character. *)
Lemma whiteSpace_shape w :
  w ∈ Js.whiteSpace →
  (∃ c1, w = String c1 "")
  ∨ (∃ c1 c2, w = String c1 (String c2 "") ∧ Js.isWhiteSpace (String c1 "") = false)
  ∨ (∃ c1 c2 c3, w = String c1 (String c2 (String c3 ""))
       ∧ Js.isWhiteSpace (String c1 "") = false
       ∧ Js.isWhiteSpace (String c1 (String c2 "")) = false).
Proof.
  unfold Js.whiteSpace. cbn [fmap list_fmap]. intros Hin.
  repeat (apply elem_of_cons in Hin as [-> | Hin];
          [first [left; by eexists
                 | right; left; eexists _, _; split; reflexivity
                 | right; right; eexists _, _, _; repeat split; reflexivity]|]).
  by apply elem_of_nil in Hin.
Qed.

Lemma trimStart_whiteSpace w s : w ∈ Js.whiteSpace → Js.trimStart (w +:+ s) = Js.trimStart s.
Proof.
  intros Hin. pose proof Hin as Hw. apply isWhiteSpace_elem in Hw.
  destruct (whiteSpace_shape w Hin)
    as [(c1 & ->) | [(c1 & c2 & -> & H1) | (c1 & c2 & c3 & -> & H1 & H2)]];
    rewrite ?append_String, append_empty; cbn [Js.trimStart].
  - by rewrite Hw.
  - by rewrite H1, Hw.
  - by rewrite H1, H2, Hw.
Qed.

Lemma startsWithWhiteSpace_tests s :
  startsWithWhiteSpace s →
  match s with
  | String c1 s1 =>
      Js.isWhiteSpace (String c1 "") = true
      ∨ match s1 with
        | String c2 s2 =>
            Js.isWhiteSpace (String c1 (String c2 "")) = true
            ∨ match s2 with
              | String c3 _ => Js.isWhiteSpace (String c1 (String c2 (String c3 ""))) = true
              | EmptyString => False
              end
        | EmptyString => False
        end
  | EmptyString => False
  end.
Proof.
  intros (w & rest & Hin & ->). pose proof Hin as Hw. apply isWhiteSpace_elem in Hw.
  destruct (whiteSpace_shape w Hin)
    as [(c1 & ->) | [(c1 & c2 & -> & _) | (c1 & c2 & c3 & -> & _)]]; rewrite ?append_String; auto.
Qed.

(** One step of [trimStart]: a white-space character is dropped, or
    there is none at the start and the string is kept. *)
Lemma trimStart_step s :
  (∃ w s', w ∈ Js.whiteSpace ∧ s = w +:+ s' ∧ Js.trimStart s = Js.trimStart s')
  ∨ (Js.trimStart s = s ∧ ¬ startsWithWhiteSpace s).
Proof.
  destruct s as [|c1 s1].
  { right. split; [done|]. intros H. by apply startsWithWhiteSpace_tests in H. }
  cbn [Js.trimStart].
  destruct (Js.isWhiteSpace (String c1 "")) eqn:H1.
  { left. exists (String c1 ""), s1. by rewrite isWhiteSpace_elem in H1. }
  destruct s1 as [|c2 s2].
  { right. split; [done|]. intros H. apply startsWithWhiteSpace_tests in H.
    rewrite H1 in H. by destruct H. }
  destruct (Js.isWhiteSpace (String c1 (String c2 ""))) eqn:H2.
  { left. exists (String c1 (String c2 "")), s2. by rewrite isWhiteSpace_elem in H2. }
  destruct s2 as [|c3 s3].
  { right. split; [done|]. intros H. apply startsWithWhiteSpace_tests in H.
    rewrite H1, H2 in H. by destruct H as [|[|]]. }
  destruct (Js.isWhiteSpace (String c1 (String c2 (String c3 "")))) eqn:H3.
  { left. exists (String c1 (String c2 (String c3 ""))), s3.
    by rewrite isWhiteSpace_elem in H3. }
  right. split; [done|]. intros H. apply startsWithWhiteSpace_tests in H.
  rewrite H1, H2, H3 in H. by destruct H as [|[|]].
Qed.

Lemma whiteSpace_nonempty w : w ∈ Js.whiteSpace → (0 < String.length w)%nat.
Proof.
  intros Hin.
  destruct (whiteSpace_shape w Hin)
    as [(c1 & ->) | [(c1 & c2 & -> & _) | (c1 & c2 & c3 & -> & _)]]; cbn; lia.
Qed.

Lemma trimStart_split s :
  ∃ l, s = l +:+ Js.trimStart s ∧ whiteSpaceOnly l
       ∧ ¬ startsWithWhiteSpace (Js.trimStart s).
Proof.
  remember (String.length s) as n eqn:Hn. revert s Hn.
  induction (lt_wf n) as [n _ IH]. intros s ->.
  destruct (trimStart_step s) as [(w & s' & Hin & -> & Hstep) | [Hkeep Hnot]].
  - destruct (IH (String.length s')) with (s := s') as (l & Hs & Hl & Hstart); [|done|].
    { rewrite append_length. pose proof (whiteSpace_nonempty w Hin). lia. }
    exists (w +:+ l). rewrite Hstep, append_assoc, <- Hs.
    split; [done|]. split; [by constructor | done].
  - exists "". rewrite Hkeep. split; [done|]. split; [constructor | done].
Qed.

Lemma trimStart_empty s : Js.trimStart s = "" ↔ whiteSpaceOnly s.
Proof.
  split.
  - intros Hs. destruct (trimStart_split s) as (l & Heq & Hl & _).
    rewrite Hs, append_empty_r in Heq. by subst l.
  - induction 1 as [|w s Hin _ IH]; [done|]. by rewrite trimStart_whiteSpace.
Qed.

Lemma whiteSpaceOnly_app l r : whiteSpaceOnly l → whiteSpaceOnly r → whiteSpaceOnly (l +:+ r).
Proof.
  induction 1 as [|w l Hin _ IH]; intros Hr; [done|].
  rewrite append_assoc. constructor; auto.
Qed.

Lemma whiteSpaceOnly_one w : w ∈ Js.whiteSpace → whiteSpaceOnly w.
Proof.
  intros Hin. rewrite <- (append_empty_r w). constructor; [done | constructor].
Qed.

Lemma trimEnd_split s :
  ∃ r, s = Js.trimEnd s +:+ r ∧ whiteSpaceOnly r
       ∧ ¬ endsWithWhiteSpace (Js.trimEnd s).
Proof.
  induction s as [|c s (r & Hs & Hr & Hend)]; cbn [Js.trimEnd].
  - exists "". split; [done|]. split; [constructor|].
    intros (w & front & Hin & Heq). apply whiteSpace_nonempty in Hin.
    apply (f_equal String.length) in Heq. rewrite append_length in Heq. cbn in Heq. lia.
  - destruct (String.eqb (Js.trimStart (String c s)) "") eqn:Hall.
    + apply String.eqb_eq, trimStart_empty in Hall. exists (String c s).
      split; [done|]. split; [done|].
      intros (w & front & Hin & Heq). apply whiteSpace_nonempty in Hin.
      apply (f_equal String.length) in Heq. rewrite append_length in Heq. cbn in Heq. lia.
    + apply String.eqb_neq in Hall. exists r. rewrite append_String, <- Hs.
      split; [done|]. split; [done|].
      intros (w & front & Hin & Heq).
      destruct front as [|c' front].
      * rewrite append_empty in Heq. apply Hall, trimStart_empty.
        rewrite Hs, <- append_String, Heq.
        apply whiteSpaceOnly_app; [by apply whiteSpaceOnly_one | done].
      * rewrite append_String in Heq. injection Heq as _ Heq.
        apply Hend. by exists w, front.
Qed.

Lemma trimEnd_empty s : Js.trimEnd s = "" ↔ whiteSpaceOnly s.
Proof.
  split.
  - intros Hs. destruct (trimEnd_split s) as (r & Heq & Hr & _).
    rewrite Hs, append_empty in Heq. by subst r.
  - intros Hs. destruct s as [|c s]; [done|]. cbn [Js.trimEnd].
    apply trimStart_empty, String.eqb_eq in Hs. by rewrite Hs.
Qed.

Lemma trimEnd_prefix s : ∃ r, s = Js.trimEnd s +:+ r.
Proof. destruct (trimEnd_split s) as (r & Hs & _). by exists r. Qed.

Lemma trimEnd_start s :
  ¬ startsWithWhiteSpace s → ¬ startsWithWhiteSpace (Js.trimEnd s).
Proof.
  intros Hs (w & rest & Hin & Heq). apply Hs.
  destruct (trimEnd_prefix s) as (r & Hr). exists w, (rest +:+ r).
  split; [done|]. by rewrite <- append_assoc, <- Heq.
Qed.

Lemma trim_empty s : Js.trim s = "" ↔ whiteSpaceOnly s.
Proof.
  unfold Js.trim. rewrite trimEnd_empty, <- (trimStart_empty s).
  destruct (trimStart_split s) as (l & _ & _ & Hstart). split.
  - intros Hw. destruct (trimStart_step (Js.trimStart s))
      as [(w & s' & Hin & Heq & _) | [_ _]].
    + exfalso. apply Hstart. by exists w, s'.
    + inversion Hw as [Hnil | w s' Hin Hs' Heq]; [done|].
      exfalso. apply Hstart. exists w, s'. by rewrite Heq.
  - intros ->. constructor.
Qed.

(** ** Tasks run in one piece *)

Lemma alone_bind {A B} (m : Async.Task A) (k : A → Async.Task B) : ∀ p,
  alone (Async.bind m k) p
  = match alone m p with
    | (Finished (Ok a), p') => alone (k a) p'
    | (Finished (Err e), p') => (Finished (Err e), p')
    | (ProcessExited code, p') => (ProcessExited code, p')
    end.
Proof.
  induction m as [[a|e]|code|next IH effect|rest IH]; intros p; cbn [Async.bind alone];
    auto.
Qed.

Lemma alone_await {A} (m : Async.Task A) : ∀ p, alone (Async.await m) p = alone m p.
Proof.
  induction m as [r|code|next IH effect|rest IH]; intros p; cbn [Async.await alone]; auto.
Qed.

Lemma alone_tryCatch {A} (m : Async.Task A) : ∀ p,
  alone (Async.tryCatch m) p
  = match alone m p with
    | (Finished r, p') => (Finished (Ok r), p')
    | (ProcessExited code, p') => (ProcessExited code, p')
    end.
Proof.
  induction m as [r|code|next IH effect|rest IH]; intros p;
    cbn [Async.tryCatch alone]; auto.
Qed.

Lemma erases_now {A} (m : M A) : erases (Async.now m) m.
Proof. intros p. reflexivity. Qed.

Lemma erases_resolve {A} (a : A) : erases (Async.resolve a) (ret a).
Proof. intros p. reflexivity. Qed.

Lemma erases_throw {A} (e : JsError) : erases (Async.Settled (@Err A e)) (throw e).
Proof. intros p. reflexivity. Qed.

Lemma erases_await {A} (t : Async.Task A) m : erases t m → erases (Async.await t) m.
Proof. intros H p. by rewrite alone_await. Qed.

Lemma erases_bind {A B} (t : Async.Task A) (k : A → Async.Task B) m k' :
  erases t m → (∀ a, erases (k a) (k' a)) → erases (Async.bind t k) (bind m k').
Proof.
  intros Ht Hk p. rewrite alone_bind, Ht. unfold atomically, bind.
  destruct (m p) as [[a|e] p']; cbn [fst snd]; [apply Hk | done].
Qed.

(** An awaited value that needs no call. *)
Lemma erases_bind_resolve {A B} (a : A) (k : A → Async.Task B) m :
  erases (k a) m → erases (Async.bind (Async.await (Async.resolve a)) k) m.
Proof. intros Hk p. rewrite alone_bind, alone_await. apply Hk. Qed.

Local Ltac erase :=
  repeat match goal with
  | |- erases (Async.now _) _ => apply erases_now
  | |- erases (Async.resolve _) _ => apply erases_resolve
  | |- erases (Async.Settled (Err _)) _ => apply erases_throw
  | |- erases (Async.await _) _ => apply erases_await
  | |- erases (Async.bind (Async.await (Async.resolve _)) _) _ =>
      apply erases_bind_resolve
  | |- erases (Async.bind _ _) _ => apply erases_bind; [|intros ?]
  | |- _ => progress cbv zeta
  end.

Lemma getWikiPageContent_erases env searchTerm :
  erases (Async.getWikiPageContent env searchTerm) (getWikiPageContent env searchTerm).
Proof. unfold Async.getWikiPageContent, getWikiPageContent. erase. Qed.

Lemma createEmbeddings_erases env text :
  erases (Async.createEmbeddings env text) (createEmbeddings env text).
Proof.
  unfold Async.createEmbeddings, createEmbeddings. apply erases_bind; [erase|].
  intros _. destruct text as [t|]; [erase|].
  intros p. reflexivity.
Qed.

Lemma search_erases env state : erases (Async.search env state) (search env state).
Proof.
  unfold Async.search, search. cbv zeta. apply erases_bind_resolve.
  apply erases_bind; [erase|]. intros response.
  destruct (findWikiToolCall response); erase.
Qed.

Lemma fetchWiki_erases env state : erases (Async.fetchWiki env state) (fetchWiki env state).
Proof.
  unfold Async.fetchWiki, fetchWiki. destruct (searchTerm state) as [term|]; [|erase].
  destruct (String.eqb term ""); [erase|].
  apply erases_bind; [erase|]. intros _.
  apply erases_bind; [apply erases_await, getWikiPageContent_erases|]. intros ?. erase.
Qed.

Lemma retrieve_erases env state : erases (Async.retrieve env state) (retrieve env state).
Proof.
  unfold Async.retrieve, retrieve. apply erases_bind; [erase|]. intros cached.
  apply erases_bind; [|intros ?; erase].
  destruct cached; [erase|].
  apply erases_bind; [erase|]. intros _.
  apply erases_bind; [apply erases_await, createEmbeddings_erases|]. intros ?. erase.
Qed.

Lemma generate_erases env state : erases (Async.generate env state) (generate env state).
Proof.
  unfold Async.generate, generate. destruct (context state); erase.
Qed.

Lemma nodeAction_erases env key :
  match Async.nodeAction (Async.graph env) key, nodeAction (graph env) key with
  | Some action, Some action' => ∀ state, erases (action state) (action' state)
  | None, None => True
  | _, _ => False
  end.
Proof.
  unfold Async.nodeAction, nodeAction, Async.graph, graph,
    Async.addNode, addNode, Async.addEdge, addEdge.
  cbn [Async.nodes nodes app List.find fst].
  destruct (String.eqb "search" key); [intros ?; apply search_erases|].
  destruct (String.eqb "fetchWiki" key); [intros ?; apply fetchWiki_erases|].
  destruct (String.eqb "retrieve" key); [intros ?; apply retrieve_erases|].
  destruct (String.eqb "generate" key); [intros ?; apply generate_erases|].
  done.
Qed.

Lemma runFrom_erases env thread_id limit : ∀ key state,
  erases (Async.runFrom (Async.graph env) limit thread_id key state)
         (runFrom (graph env) limit thread_id key state).
Proof.
  induction limit as [|limit IH]; intros key state; cbn [Async.runFrom runFrom];
    change (Async.successor (Async.graph env) key) with (successor (graph env) key);
    destruct (successor (graph env) key) as [next|]; try by erase.
  - destruct (String.eqb next "__end__"); erase.
  - destruct (String.eqb next "__end__"); [erase|].
    pose proof (nodeAction_erases env next) as Hnode.
    destruct (Async.nodeAction (Async.graph env) next) as [action|],
             (nodeAction (graph env) next) as [action'|]; try done.
    apply erases_bind; [apply erases_await, Hnode|]. intros update. cbv zeta.
    apply erases_bind; [erase|]. intros _. apply IH.
Qed.

Lemma invoke_erases env inputs thread_id :
  erases (Async.invoke (Async.graph env) inputs thread_id)
         (invoke (graph env) inputs thread_id).
Proof.
  unfold Async.invoke, invoke.
  apply erases_bind; [erase|]. intros _.
  apply erases_bind; [erase|]. intros saved. cbv zeta.
  apply erases_bind; [erase|]. intros _. apply runFrom_erases.
Qed.

(** The handler, run in one piece, is the handler of the first
    embedding. *)
Lemma onData_alone env data p :
  alone (Async.onData env data) p = handled (onData env data p).
Proof.
  unfold Async.onData, onData.
  destruct (String.eqb (Js.toLowerCase (Js.trim data)) "/bye"); [reflexivity|].
  destruct (Nat.eqb (String.length (Js.trim data)) 0); [reflexivity|].
  cbv zeta. rewrite alone_bind, alone_tryCatch, alone_bind. cbn [Async.now alone fst snd].
  unfold console_log at 1 2. cbn [fst snd].
  rewrite alone_await, invoke_erases. unfold atomically.
  destruct (invoke (graph env) _ 1 _) as [[result|error] p2]; reflexivity.
Qed.

(** ** The lives of a task under the event loop *)

Lemma runs_bind_inv {A B} (m : Async.Task A) (k : A → Async.Task B) : ∀ events o,
  runs (Async.bind m k) events o →
  (∃ a events1 events2,
     runs m events1 (Finished (Ok a)) ∧ runs (k a) events2 o
     ∧ events = events1 ++ events2)
  ∨ (∃ e, runs m events (Finished (Err e)) ∧ o = Finished (Err e))
  ∨ (∃ code, runs m events (ProcessExited code) ∧ o = ProcessExited code).
Proof.
  induction m as [[a|e]|code|next IH effect|rest IH]; intros events o;
    cbn [Async.bind]; intros Hruns.
  - left. exists a, [], events. split; [constructor | done].
  - inversion Hruns; subst. right. left. exists e. split; [constructor | done].
  - inversion Hruns; subst. right. right. exists code. split; [constructor | done].
  - inversion Hruns as [| |next' effect' p events' o' Hrest|]; subst.
    destruct (IH p _ _ Hrest)
      as [(a & ev1 & ev2 & H1 & H2 & ->) | [(e & H1 & ->) | (code & H1 & ->)]].
    + left. exists a, (newEvents p (effect p) ++ ev1), ev2.
      split; [by constructor|]. split; [done | by rewrite app_assoc].
    + right. left. exists e. split; [by constructor | done].
    + right. right. exists code. split; [by constructor | done].
  - inversion Hruns as [| | |rest' events' o' Hrest]; subst.
    destruct (IH _ _ Hrest)
      as [(a & ev1 & ev2 & H1 & H2 & ->) | [(e & H1 & ->) | (code & H1 & ->)]].
    + left. exists a, ev1, ev2. split; [by constructor | done].
    + right. left. exists e. split; [by constructor | done].
    + right. right. exists code. split; [by constructor | done].
Qed.

Lemma runs_await_inv {A} (m : Async.Task A) : ∀ events o,
  runs (Async.await m) events o → runs m events o.
Proof.
  induction m as [r|code|next IH effect|rest IH]; intros events o;
    cbn [Async.await]; intros Hruns.
  - by inversion Hruns; subst.
  - done.
  - inversion Hruns; subst. constructor. by apply IH.
  - inversion Hruns; subst. constructor. by apply IH.
Qed.

Lemma runs_tryCatch_inv {A} (m : Async.Task A) : ∀ events o,
  runs (Async.tryCatch m) events o →
  (∃ r, runs m events (Finished r) ∧ o = Finished (Ok r))
  ∨ (∃ code, runs m events (ProcessExited code) ∧ o = ProcessExited code).
Proof.
  induction m as [r|code|next IH effect|rest IH]; intros events o;
    cbn [Async.tryCatch]; intros Hruns.
  - inversion Hruns; subst. left. exists r. split; [constructor | done].
  - inversion Hruns; subst. right. exists code. split; [constructor | done].
  - inversion Hruns as [| |next' effect' p events' o' Hrest|]; subst.
    destruct (IH p _ _ Hrest) as [(r & H1 & ->) | (code & H1 & ->)].
    + left. exists r. split; [by constructor | done].
    + right. exists code. split; [by constructor | done].
  - inversion Hruns as [| | |rest' events' o' Hrest]; subst.
    destruct (IH _ _ Hrest) as [(r & H1 & ->) | (code & H1 & ->)].
    + left. exists r. split; [by constructor | done].
    + right. exists code. split; [by constructor | done].
Qed.

Lemma runs_now_inv {A} (m : M A) events o :
  runs (Async.now m) events o →
  ∃ p, events = newEvents p (snd (m p)) ∧ o = Finished (fst (m p)).
Proof.
  unfold Async.now. intros Hruns.
  inversion Hruns as [| |next' effect' p events' o' Hrest|]; subst.
  inversion Hrest; subst. exists p. by rewrite app_nil_r.
Qed.

Lemma newEvents_emit e p : newEvents p (emit e p) = [e].
Proof. by apply newEvents_app. Qed.

(** ** Tasks that cause node events only *)

Lemma quiet_settled {A} (r : Res A) : quiet (Async.Settled r).
Proof. intros events o Hruns. inversion Hruns; subst. split; [constructor | by eexists]. Qed.

Lemma quiet_now {A} (m : M A) : addsNodeEvents m → quiet (Async.now m).
Proof.
  intros Hm events o Hruns. apply runs_now_inv in Hruns as (p & -> & ->).
  destruct (Hm p) as (ev & Ht & Hev). rewrite (newEvents_app _ _ _ Ht).
  split; [done | by eexists].
Qed.

Lemma quiet_await {A} (m : Async.Task A) : quiet m → quiet (Async.await m).
Proof. intros Hm events o Hruns. by apply Hm, runs_await_inv. Qed.

Lemma quiet_bind {A B} (m : Async.Task A) (k : A → Async.Task B) :
  quiet m → (∀ a, quiet (k a)) → quiet (Async.bind m k).
Proof.
  intros Hm Hk events o Hruns.
  destruct (runs_bind_inv _ _ _ _ Hruns)
    as [(a & ev1 & ev2 & H1 & H2 & ->) | [(e & H1 & ->) | (code & H1 & ->)]].
  - destruct (Hm _ _ H1) as [Hev1 _], (Hk a _ _ H2) as [Hev2 Ho].
    split; [by apply Forall_app | done].
  - destruct (Hm _ _ H1) as [Hev1 _]. split; [done | by eexists].
  - by destruct (Hm _ _ H1) as [_ [r [=]]].
Qed.

Lemma frames_addsNodeEvents {A} (m : M A) :
  (∀ p, frames p (snd (m p))) → addsNodeEvents m.
Proof. intros Hm p. by destruct (Hm p) as (_ & _ & H). Qed.

Lemma silent_addsNodeEvents {A} (m : M A) :
  (∀ p, trace (snd (m p)) = trace p) → addsNodeEvents m.
Proof. intros Hm p. exists []. by rewrite app_nil_r. Qed.

Local Ltac hush :=
  repeat match goal with
  | |- quiet (Async.Settled _) => apply quiet_settled
  | |- quiet (Async.resolve _) => apply quiet_settled
  | |- quiet (Async.await _) => apply quiet_await
  | |- quiet (Async.bind _ _) => apply quiet_bind; [|intros ?]
  | |- quiet (Async.now (call _ _)) =>
      apply quiet_now, frames_addsNodeEvents; intros ?; by apply frames_call
  | |- quiet (Async.now (console_log _)) =>
      apply quiet_now, frames_addsNodeEvents; intros ?; apply frames_console_log
  | |- quiet (Async.now (record _)) =>
      apply quiet_now, frames_addsNodeEvents; intros ?; by apply frames_record
  | |- quiet (Async.now (Promise_all _ _)) =>
      apply quiet_now, frames_addsNodeEvents; intros ?; apply Promise_all_pageText_frames
  | |- quiet (Async.now _) => apply quiet_now, silent_addsNodeEvents; by intros ?
  | |- _ => progress cbv zeta
  end.

Lemma getWikiPageContent_quiet env searchTerm :
  quiet (Async.getWikiPageContent env searchTerm).
Proof. unfold Async.getWikiPageContent. hush. Qed.

Lemma createEmbeddings_quiet env text : quiet (Async.createEmbeddings env text).
Proof. unfold Async.createEmbeddings. hush. destruct text; hush. Qed.

Lemma search_quiet env state : quiet (Async.search env state).
Proof. unfold Async.search. hush. destruct (findWikiToolCall _); hush. Qed.

Lemma fetchWiki_quiet env state : quiet (Async.fetchWiki env state).
Proof.
  unfold Async.fetchWiki. destruct (searchTerm state) as [term|]; [|hush].
  destruct (String.eqb term ""); hush. apply getWikiPageContent_quiet.
Qed.

Lemma retrieve_quiet env state : quiet (Async.retrieve env state).
Proof.
  unfold Async.retrieve. apply quiet_bind; [hush|]. intros cached.
  apply quiet_bind; [|intros ?; hush].
  destruct cached; hush. apply createEmbeddings_quiet.
Qed.

Lemma generate_quiet env state : quiet (Async.generate env state).
Proof. unfold Async.generate. destruct (context state); hush. Qed.

Lemma nodeAction_quiet env key action :
  Async.nodeAction (Async.graph env) key = Some action → ∀ state, quiet (action state).
Proof.
  unfold Async.nodeAction, Async.graph, Async.addNode, Async.addEdge.
  cbn [Async.nodes app List.find fst].
  destruct (String.eqb "search" key); [intros [= <-]; apply search_quiet|].
  destruct (String.eqb "fetchWiki" key); [intros [= <-]; apply fetchWiki_quiet|].
  destruct (String.eqb "retrieve" key); [intros [= <-]; apply retrieve_quiet|].
  destruct (String.eqb "generate" key); [intros [= <-]; apply generate_quiet|].
  done.
Qed.

Lemma runFrom_quiet env thread_id limit : ∀ key state,
  quiet (Async.runFrom (Async.graph env) limit thread_id key state).
Proof.
  induction limit as [|limit IH]; intros key state; cbn [Async.runFrom];
    destruct (Async.successor (Async.graph env) key) as [next|]; try by hush.
  - destruct (String.eqb next "__end__"); hush.
  - destruct (String.eqb next "__end__"); [hush|].
    destruct (Async.nodeAction (Async.graph env) next) as [action|] eqn:Hnode; [|hush].
    hush; [by eapply nodeAction_quiet | apply IH].
Qed.

(** ** The handler under the event loop *)

(** What the handler does once the graph has run: the answer or the
    error is printed, then the invitation to go on. *)
Lemma verdict_runs (turn : Async.Task State) :
  quiet turn →
  always
    (Async.bind (Async.tryCatch turn)
       (λ outcome,
          Async.bind
            match outcome with
            | Ok result => Async.now (console_log (AnswerLine (answer result)))
            | Err error => Async.now (record (ConsoleError (ErrorProcessingQuestion error)))
            end
            (λ _, Async.now (console_log AskAnotherQuestion))))
    (λ events o,
       ∃ middle last,
         events = middle ++ [last; ConsoleLog AskAnotherQuestion]
         ∧ Forall nodeEvent middle ∧ isVerdictLine last = true ∧ o = Finished (Ok tt)).
Proof.
  intros Hquiet events o Hruns.
  destruct (runs_bind_inv _ _ _ _ Hruns)
    as [(outcome & ev1 & ev2 & H1 & H2 & ->) | [(e & H1 & _) | (code & H1 & _)]].
  - apply runs_tryCatch_inv in H1 as [(r & H1 & [= ->]) | (code & _ & [=])].
    destruct (Hquiet _ _ H1) as [Hev1 _].
    destruct (runs_bind_inv _ _ _ _ H2)
      as [([] & ev3 & ev4 & H3 & H4 & ->) | [(e & H3 & _) | (code & H3 & _)]].
    + apply runs_now_inv in H4 as (p4 & -> & ->).
      exists ev1. destruct r as [result|error];
        apply runs_now_inv in H3 as (p3 & -> & _); cbn [console_log record snd];
        rewrite !newEvents_emit; eexists; (split; [done|]); done.
    + destruct r; by apply runs_now_inv in H3 as (p3 & _ & [=]).
    + destruct r; by apply runs_now_inv in H3 as (p3 & _ & [=]).
  - by apply runs_tryCatch_inv in H1 as [(r & _ & [=]) | (code & _ & [=])].
  - apply runs_tryCatch_inv in H1 as [(r & _ & [=]) | (code' & H1 & _)].
    by destruct (Hquiet _ _ H1) as [_ [r [=]]].
Qed.

(** How far a task gets before it is suspended. *)
Lemma advance_now {A} (m : M A) p :
  Async.advance (Async.now m) p = (Async.Settled (fst (m p)), snd (m p)).
Proof. reflexivity. Qed.

Lemma advance_bind_settled {A B} (m : Async.Task A) (k : A → Async.Task B) a : ∀ p p',
  Async.advance m p = (Async.Settled (Ok a), p') →
  Async.advance (Async.bind m k) p = Async.advance (k a) p'.
Proof.
  induction m as [[a'|e]|code|next IH effect|rest IH]; intros p p';
    cbn [Async.bind Async.advance]; try (by intros [=]); auto.
  by intros [= -> ->].
Qed.

Lemma advance_bind_await {A B} (m : Async.Task A) (k : A → Async.Task B) rest : ∀ p p',
  Async.advance m p = (Async.Await rest, p') →
  Async.advance (Async.bind m k) p = (Async.Await (Async.bind rest k), p').
Proof.
  induction m as [[a'|e]|code|next IH effect|rest' IH]; intros p p';
    cbn [Async.bind Async.advance]; try (by intros [=]); auto.
  by intros [= -> ->].
Qed.

Lemma advance_tryCatch_await {A} (m : Async.Task A) rest : ∀ p p',
  Async.advance m p = (Async.Await rest, p') →
  Async.advance (Async.tryCatch m) p = (Async.Await (Async.tryCatch rest), p').
Proof.
  induction m as [r|code|next IH effect|rest' IH]; intros p p';
    cbn [Async.tryCatch Async.advance]; try (by intros [=]); auto.
  by intros [= -> ->].
Qed.

Lemma advance_await_settled {A} (m : Async.Task A) r : ∀ p p',
  Async.advance m p = (Async.Settled r, p') →
  Async.advance (Async.await m) p = (Async.Await (Async.Settled r), p').
Proof.
  induction m as [r'|code|next IH effect|rest' IH]; intros p p';
    cbn [Async.await Async.advance]; try (by intros [=]); auto.
  by intros [= -> ->].
Qed.

Lemma advance_await_await {A} (m : Async.Task A) rest : ∀ p p',
  Async.advance m p = (Async.Await rest, p') →
  Async.advance (Async.await m) p = (Async.Await (Async.await rest), p').
Proof.
  induction m as [r'|code|next IH effect|rest' IH]; intros p p';
    cbn [Async.await Async.advance]; try (by intros [=]); auto.
  by intros [= -> ->].
Qed.

(** The first stretch of an invocation: the graph is entered and the
    checkpoint is asked for. *)
Lemma invoke_advance env inputs thread_id p :
  ∃ rest,
    Async.advance (Async.invoke (Async.graph env) inputs thread_id) p
    = (Async.Await rest, emit (GraphInvoke thread_id inputs) p)
    ∧ quiet rest.
Proof.
  unfold Async.invoke. eexists. split.
  - erewrite advance_bind_settled by reflexivity.
    cbn [record fst snd].
    erewrite advance_bind_await; [reflexivity|].
    apply advance_await_settled. apply advance_now.
  - cbn [getCheckpoint fst snd]. change (Async.Settled (Ok ?a)) with (Async.resolve a).
    hush. apply runFrom_quiet.
Qed.

(** The first stretch of the handler on a question. *)
Lemma onData_advance env data p :
  Js.toLowerCase (Js.trim data) ≠ "/bye" → Js.trim data ≠ "" →
  ∃ rest,
    Async.advance (Async.onData env data) p
    = (Async.Await rest,
       emit (GraphInvoke 1 (inputsOf (Js.trim data))) (emit (ConsoleLog Thinking) p))
    ∧ always rest
        (λ events o,
           ∃ middle last,
             events = middle ++ [last; ConsoleLog AskAnotherQuestion]
             ∧ Forall nodeEvent middle ∧ isVerdictLine last = true ∧ o = Finished (Ok tt)).
Proof.
  intros Hbye Hblank. unfold Async.onData.
  apply String.eqb_neq in Hbye. rewrite Hbye, (String_length_0 _ Hblank). cbv zeta.
  destruct (invoke_advance env (inputsOf (Js.trim data)) 1 (emit (ConsoleLog Thinking) p))
    as (rest & Hadv & Hquiet).
  eexists. split.
  - erewrite advance_bind_await; [reflexivity|].
    apply advance_tryCatch_await.
    erewrite advance_bind_settled by reflexivity.
    cbn [console_log fst snd]. apply advance_await_await. exact Hadv.
  - apply verdict_runs. by apply quiet_await.
Qed.

(** ** The event loop *)

Lemma step_exited env l ev code : Async.exitCode l = Some code → Async.step env l ev = l.
Proof. intros H. unfold Async.step. by rewrite H. Qed.

Lemma run_exited env schedule : ∀ l code,
  Async.exitCode l = Some code → Async.run env schedule l = l.
Proof.
  induction schedule as [|ev schedule IH]; intros l code H; [done|].
  cbn [Async.run foldl]. rewrite (step_exited env l ev code H). by apply (IH l code).
Qed.

Lemma run_app env s1 s2 l :
  Async.run env (s1 ++ s2) l = Async.run env s2 (Async.run env s1 l).
Proof. apply foldl_app. Qed.

Lemma run_cons env ev schedule l :
  Async.run env (ev :: schedule) l = Async.run env schedule (Async.step env l ev).
Proof. reflexivity. Qed.

Lemma lookup_last {A} (l : list A) x : (l ++ [x]) !! length l = Some x.
Proof. by rewrite list_lookup_middle. Qed.

Lemma delete_last {A} (l : list A) x : delete (length l) (l ++ [x]) = l.
Proof. by rewrite delete_middle, app_nil_r. Qed.

Lemma insert_last {A} (l : list A) x y : <[length l := y]> (l ++ [x]) = l ++ [y].
Proof.
  rewrite <- (Nat.add_0_r (length l)). by rewrite insert_app_r.
Qed.

(** Resuming the handler that was suspended last. *)
Lemma step_resume_last env t p handlers :
  Async.step env {| Async.proc := p; Async.waiting := handlers ++ [t];
                    Async.exitCode := None |} (Async.Resume (length handlers))
  = match Async.advance t p with
    | (Async.Exit code, p') =>
        {| Async.proc := p'; Async.waiting := handlers; Async.exitCode := Some code |}
    | (Async.Await rest, p') =>
        {| Async.proc := p'; Async.waiting := handlers ++ [rest];
           Async.exitCode := None |}
    | (_, p') =>
        {| Async.proc := p'; Async.waiting := handlers; Async.exitCode := None |}
    end.
Proof.
  unfold Async.step. cbn [Async.exitCode Async.waiting Async.proc].
  rewrite lookup_last, delete_last.
  destruct (Async.advance t p) as [[r|code|next effect|rest] p']; try done.
  by rewrite insert_last.
Qed.

(** A suspended handler that is resumed until it ends, nothing
    happening in between, does what it does in one piece. *)
Lemma resume_alone env (t : Async.Task unit) : ∀ p handlers,
  ∃ n, Async.run env (replicate (S n) (Async.Resume (length handlers)))
         {| Async.proc := p; Async.waiting := handlers ++ [t]; Async.exitCode := None |}
       = match alone t p with
         | (Finished _, p') =>
             {| Async.proc := p'; Async.waiting := handlers; Async.exitCode := None |}
         | (ProcessExited code, p') =>
             {| Async.proc := p'; Async.waiting := handlers;
                Async.exitCode := Some code |}
         end.
Proof.
  induction t as [r|code|next IH effect|rest IH]; intros p handlers.
  - exists 0. cbn [replicate]. by rewrite run_cons, step_resume_last.
  - exists 0. cbn [replicate]. by rewrite run_cons, step_resume_last.
  - destruct (IH p (effect p) handlers) as [n Hn]. exists n.
    cbn [replicate alone] in *. rewrite run_cons, step_resume_last in *.
    exact Hn.
  - destruct (IH p handlers) as [n Hn]. exists (S n).
    cbn [replicate alone] in *. rewrite run_cons, step_resume_last.
    cbn [Async.advance]. exact Hn.
Qed.

Lemma alone_advance {A} (t : Async.Task A) : ∀ p,
  alone t p = alone (fst (Async.advance t p)) (snd (Async.advance t p)).
Proof. induction t as [r|code|next IH effect|rest IH]; intros p; cbn; auto. Qed.

Lemma advance_stops {A} (t : Async.Task A) : ∀ p next effect p',
  Async.advance t p ≠ (Async.Run next effect, p').
Proof.
  induction t as [r|code|next IH effect|rest IH]; intros p next' effect' p';
    cbn [Async.advance]; auto; by intros [=].
Qed.

(** A chunk whose handler is left to run to its end before anything
    else happens is handled as [onData] says. *)
Lemma data_alone env data p handlers :
  ∃ n, Async.run env (Async.Data data :: replicate n (Async.Resume (length handlers)))
         {| Async.proc := p; Async.waiting := handlers; Async.exitCode := None |}
       = loopAfter (onData env data p) handlers.
Proof.
  pose proof (onData_alone env data p) as Halone.
  rewrite alone_advance in Halone.
  assert (∀ n,
    Async.run env (Async.Data data :: replicate n (Async.Resume (length handlers)))
      {| Async.proc := p; Async.waiting := handlers; Async.exitCode := None |}
    = Async.run env (replicate n (Async.Resume (length handlers)))
        match Async.advance (Async.onData env data) p with
        | (Async.Exit code, p') =>
            {| Async.proc := p'; Async.waiting := handlers; Async.exitCode := Some code |}
        | (Async.Await rest, p') =>
            {| Async.proc := p'; Async.waiting := handlers ++ [rest];
               Async.exitCode := None |}
        | (_, p') =>
            {| Async.proc := p'; Async.waiting := handlers; Async.exitCode := None |}
        end) as Hstep by (intros n; rewrite run_cons; reflexivity).
  destruct (Async.advance (Async.onData env data) p) as [t' p'] eqn:Hadv.
  cbn [fst snd] in Halone. unfold handled, loopAfter in *.
  destruct t' as [r|code|next effect|rest]; cbn [alone] in Halone.
  - exists 0. rewrite Hstep. injection Halone as Ho <-.
    by destruct (fst (onData env data p)).
  - exists 0. rewrite Hstep. injection Halone as Ho <-.
    destruct (fst (onData env data p)); [done|]. by injection Ho as ->.
  - by apply advance_stops in Hadv.
  - destruct (resume_alone env rest p' handlers) as [n Hn]. exists (S n).
    rewrite Hstep, Hn, Halone. by destruct (fst (onData env data p)).
Qed.

(** ** Only the exit command ends the process *)

Lemma advance_runs {A} (t : Async.Task A) : ∀ p,
  ∃ first, ∀ events o,
    runs (fst (Async.advance t p)) events o → runs t (first ++ events) o.
Proof.
  induction t as [r|code|next IH effect|rest IH]; intros p; cbn [Async.advance fst];
    try by exists [].
  destruct (IH p (effect p)) as [first Hfirst].
  exists (newEvents p (effect p) ++ first). intros events o Hruns.
  rewrite <- app_assoc. constructor. by apply Hfirst.
Qed.

Lemma staysAlive_advance {A} (t : Async.Task A) p :
  staysAlive t →
  match fst (Async.advance t p) with
  | Async.Exit _ => False
  | Async.Await rest => staysAlive rest
  | _ => True
  end.
Proof.
  intros Halive. destruct (advance_runs t p) as [first Hfirst].
  destruct (fst (Async.advance t p)) as [r|code|next effect|rest]; try done.
  - destruct (Halive _ _ (Hfirst _ _ (runs_exit code))) as [r [=]].
  - intros events o Hruns. apply (Halive (first ++ events)), Hfirst. by constructor.
Qed.

Lemma step_bye env l data :
  Async.exitCode l = None → Js.trim data ∈ byeSpellings →
  Async.step env l (Async.Data data)
  = {| Async.proc := emit (ProcessExit 0) (emit (ConsoleLog Goodbye) (Async.proc l));
       Async.waiting := Async.waiting l; Async.exitCode := Some 0%Z |}.
Proof.
  intros Hexit Hbye. apply toLowerCase_bye, String.eqb_eq in Hbye.
  unfold Async.step, Async.onData. by rewrite Hexit, Hbye.
Qed.

Lemma step_blank env l data :
  Async.exitCode l = None → Js.trim data = "" → Async.step env l (Async.Data data) = l.
Proof.
  intros Hexit Hblank. unfold Async.step, Async.onData. rewrite Hexit, Hblank.
  destruct l as [p handlers exit]. cbn in *. by subst exit.
Qed.

Lemma step_question env l data :
  Async.exitCode l = None → Js.trim data ∉ byeSpellings → Js.trim data ≠ "" →
  ∃ rest,
    Async.step env l (Async.Data data)
    = {| Async.proc := emit (GraphInvoke 1 (inputsOf (Js.trim data)))
                         (emit (ConsoleLog Thinking) (Async.proc l));
         Async.waiting := Async.waiting l ++ [rest]; Async.exitCode := None |}
    ∧ always rest
        (λ events o,
           ∃ middle last,
             events = middle ++ [last; ConsoleLog AskAnotherQuestion]
             ∧ Forall nodeEvent middle ∧ isVerdictLine last = true ∧ o = Finished (Ok tt)).
Proof.
  intros Hexit Hbye Hblank. rewrite <- toLowerCase_bye in Hbye.
  destruct (onData_advance env data (Async.proc l) Hbye Hblank) as (rest & Hadv & Hrest).
  exists rest. split; [|done]. unfold Async.step. by rewrite Hexit, Hadv.
Qed.

(** Any turn of the loop but the exit command leaves the process
    running, and the suspended handlers are such that never exit. *)
Lemma step_not_bye env l ev :
  Async.exitCode l = None → Forall staysAlive (Async.waiting l) → deliversNoBye ev →
  Async.exitCode (Async.step env l ev) = None
  ∧ Forall staysAlive (Async.waiting (Async.step env l ev)).
Proof.
  intros Hexit Halive Hev. destruct ev as [data|i]; cbn [deliversNoBye] in Hev.
  - destruct (decide (Js.trim data = "")) as [Hblank|Hblank].
    { by rewrite step_blank. }
    destruct (step_question env l data Hexit Hev Hblank) as (rest & -> & Hrest).
    split; [done|]. cbn [Async.waiting]. apply Forall_app. split; [done|].
    constructor; [|done]. intros events o Hruns.
    destruct (Hrest _ _ Hruns) as (_ & _ & _ & _ & _ & ->). by eexists.
  - unfold Async.step. rewrite Hexit.
    destruct (Async.waiting l !! i) as [t|] eqn:Hi; [|done].
    pose proof (staysAlive_advance t (Async.proc l)) as Hadv.
    rewrite Forall_lookup in Halive. specialize (Hadv (Halive _ _ Hi)).
    destruct (Async.advance t (Async.proc l)) as [[r|code|next effect|rest] p'];
      cbn [fst Async.exitCode Async.waiting] in *; try done;
      (split; [done|]); rewrite <- Forall_lookup in Halive.
    + by apply Forall_delete.
    + by apply Forall_delete.
    + by apply Forall_insert.
Qed.

(** How a schedule ends: no exit command was delivered and the process
    is running, or it exited at the first exit command delivered. *)
Lemma run_outcome env schedule : ∀ l,
  Async.exitCode l = None → Forall staysAlive (Async.waiting l) →
  (Async.exitCode (Async.run env schedule l) = None ∧ Forall deliversNoBye schedule)
  ∨ ∃ before data after,
      schedule = before ++ Async.Data data :: after
      ∧ Forall deliversNoBye before
      ∧ Js.trim data ∈ byeSpellings
      ∧ Async.exitCode (Async.run env before l) = None
      ∧ Async.run env schedule l
        = {| Async.proc := emit (ProcessExit 0)
                             (emit (ConsoleLog Goodbye)
                                (Async.proc (Async.run env before l)));
             Async.waiting := Async.waiting (Async.run env before l);
             Async.exitCode := Some 0%Z |}.
Proof.
  induction schedule as [|ev schedule IH]; intros l Hexit Halive.
  - left. by split.
  - assert (deliversNoBye ev ∨ ∃ data, ev = Async.Data data ∧ Js.trim data ∈ byeSpellings)
      as [Hev | (data & -> & Hbye)].
    { destruct ev as [data|i]; [|by left]. cbn [deliversNoBye]. unfold notBye.
      destruct (decide (Js.trim data ∈ byeSpellings)); [right; by exists data | by left]. }
    + destruct (step_not_bye env l ev Hexit Halive Hev) as [Hexit' Halive'].
      rewrite run_cons.
      destruct (IH _ Hexit' Halive')
        as [[Hrun Hall] | (before & data & after & -> & Hall & Hbye & Hbefore & Hrun)].
      * left. split; [done | by constructor].
      * right. exists (ev :: before), data, after.
        split; [done|]. split; [by constructor|]. split; [done|].
        by rewrite run_cons.
    + right. exists [], data, schedule. split; [done|]. split; [constructor|].
      split; [done|]. split; [done|].
      rewrite run_cons, (step_bye env l data Hexit Hbye). by eapply run_exited.
Qed.

(** ** Where the error of a turn comes from *)

Lemma tidyStores_builtStores env p : tidyStores env p → builtStores env p.
Proof.
  intros (Hnone & Hbuilt & _) [text|] vectorStore Hget.
  - destruct (Hbuilt text vectorStore Hget) as [t Ht]. by eexists _, _.
  - by rewrite Hnone in Hget.
Qed.

Lemma search_error env state p e :
  fst (search env state p) = Err e → serviceError env e.
Proof.
  rewrite search_run. cbn [fst].
  destruct (llm_invoke env (clock p) (searchMessages state)) as [response|e'] eqn:Hllm.
  - by destruct (findWikiToolCall response).
  - intros [= <-]. left. by eexists _, _.
Qed.

Lemma getWikiPageContent_error env searchTerm p e :
  fst (getWikiPageContent env searchTerm p) = Err e → serviceError env e.
Proof.
  rewrite getWikiPageContent_run.
  destruct (wiki_search env (clock p) searchTerm) as [found|e'] eqn:Hsearch.
  - cbv zeta. destruct (settleAll _ _) as [contents|e'] eqn:Hall; [discriminate|].
    intros [= <-]. apply settleAll_Err_inv in Hall as [j Hj].
    apply pageOutcomes_lookup in Hj as (title & _ & Hj).
    right. right. left. by eexists _, _.
  - intros [= <-]. right. left. by eexists _, _.
Qed.

Lemma fetchWiki_error env state p e :
  fst (fetchWiki env state p) = Err e → serviceError env e.
Proof.
  unfold fetchWiki. destruct (searchTerm state) as [term|]; [|discriminate].
  destruct (String.eqb term ""); [discriminate|].
  unfold bind, console_log, ret.
  destruct (getWikiPageContent env term _) as [[text|e'] p1] eqn:Hget; [discriminate|].
  intros [= <-].
  exact (getWikiPageContent_error env term _ e' (f_equal fst Hget)).
Qed.

Lemma retrieve_error env state p e :
  builtStores env p →
  fst (retrieve env state p) = Err e →
  serviceError env e
  ∨ (searchContent state = None ∧ ∃ msg, e = TypeError msg).
Proof.
  intros Hbuilt.
  destruct (embeddingCache p !! searchContent state) as [vectorStore|] eqn:Hget.
  - rewrite (retrieve_cached env state p vectorStore Hget). cbn [fst].
    destruct (similaritySearch vectorStore _ _) eqn:Hsim; [discriminate|].
    intros [= <-]. left. do 4 right.
    destruct (Hbuilt _ _ Hget) as (t & documents & Hadd). by eexists _, _, _, _, _.
  - destruct (searchContent state) as [text|] eqn:Hc.
    + destruct (addDocuments env (clock p) (createDocuments env text))
        as [vectorStore|e'] eqn:Hadd.
      * rewrite (retrieve_built env state p text vectorStore Hc Hget Hadd). cbn [fst].
        destruct (similaritySearch vectorStore _ _) eqn:Hsim; [discriminate|].
        intros [= <-]. left. do 4 right. by eexists _, _, _, _, _.
      * unfold retrieve, createEmbeddings, bind, cache_get, console_log, record, call.
        rewrite Hc, Hget. cbn [emit tick clock]. rewrite Hadd. cbn [fst].
        intros [= <-]. left. do 3 right. left. by eexists _, _.
    + rewrite (retrieve_absent env state p Hc Hget). cbn [fst].
      intros [= <-]. right. split; [done | by eexists].
Qed.

Lemma started_tidyStores env : tidyStores env started.
Proof.
  split; [done|]. split; [|done]. intros text vectorStore Hget.
  unfold started in Hget. cbn [embeddingCache] in Hget. by rewrite lookup_empty in Hget.
Qed.

(** With no exit command delivered the process goes on. *)
Lemma run_no_bye env schedule : ∀ l,
  Async.exitCode l = None → Forall staysAlive (Async.waiting l) →
  Forall deliversNoBye schedule →
  Async.exitCode (Async.run env schedule l) = None.
Proof.
  induction schedule as [|ev schedule IH]; intros l Hexit Halive Hall; [done|].
  apply Forall_cons in Hall as [Hev Hall]. rewrite run_cons.
  destruct (step_not_bye env l ev Hexit Halive Hev) as [Hexit' Halive']. by apply IH.
Qed.

Lemma isResume_deliversNoBye ev : isResume ev → deliversNoBye ev.
Proof. by destruct ev. Qed.

(** ** The claims *)




(** C2, as stated, fails: when the search finds no page the fetch
    returns, with the empty text. *)
Lemma getWikiPageContent_zero_pages_counterexample :
  ~ (forall env searchTerm p found,
        wiki_search env (clock p) searchTerm = Ok found ->
        wiki.results found = [] ->
        exists e, fst (getWikiPageContent env searchTerm p) = Err e).
Proof.
  intros claim.
  destruct (claim Sample.nothingFound "Zzyzx" started (Sample.found []) eq_refl eq_refl)
    as [e He].
  vm_compute in He. discriminate.
Qed.

(** C2, amended.  For every search term for which the title search
    answers with zero pages, the Content Fetcher requests no page and
    returns the empty string. *)
Theorem getWikiPageContent_zero_pages
    (env : Env) (searchTerm : string) (p : Proc) (found : wiki.wikiSearchResult) :
  wiki_search env (clock p) searchTerm = Ok found ->
  wiki.results found = [] ->
  fst (getWikiPageContent env searchTerm p) = Ok ""
  /\ trace (snd (getWikiPageContent env searchTerm p))
     = trace p ++ [ConsoleLog (SearchingWikipediaFor searchTerm); WikiSearch searchTerm;
                   ConsoleLog (WikipediaSearchComplete "")].
Proof.
  intros Hsearch Hnone.
  rewrite (getWikiPageContent_fulfilled env searchTerm p found []); rewrite ?Hnone; done.
Qed.

Lemma getWikiPageContent_zero_pages_witness :
  fst (getWikiPageContent Sample.nothingFound "Zzyzx" started) = Ok "".
Proof.
  apply (getWikiPageContent_zero_pages Sample.nothingFound "Zzyzx" started
           (Sample.found [])); reflexivity.
Defined.



(** C4: the code misses a case.  On the first turn of a session the
    model answers without a tool call: [search] returns the empty
    search term and the reply, [fetchWiki] prints that it answers from
    the previous context, returns the state as it is and fetches
    nothing.  But no text was ever fetched, so there is no index:
    [retrieve] calls [createEmbeddings] on [undefined], which throws;
    [generate] never runs, and the handler prints the error in place of
    an answer.  The reply of the reasoning step stays in the
    checkpoint, unused. *)
Theorem skip_turn_without_index_throws :
  fst (turn Sample.knowItAll "What is 2+2?" started)
  = Err (TypeError "Cannot read properties of undefined (reading 'includes')")
  /\ newEvents started (snd (onData Sample.knowItAll "What is 2+2?" started))
     = [ConsoleLog Thinking;
        GraphInvoke 1 (inputsOf "What is 2+2?");
        LlmInvoke (startingPrompt (Some "What is 2+2?"));
        ConsoleLog AnsweringFromPreviousContext;
        ConsoleLog CreatingEmbeddings;
        CreateEmbeddings None;
        ConsoleError (ErrorProcessingQuestion
          (TypeError "Cannot read properties of undefined (reading 'includes')"));
        ConsoleLog AskAnotherQuestion]
  /\ memory (snd (onData Sample.knowItAll "What is 2+2?" started)) !! 1%Z
     = Some {| question := Some "What is 2+2?"; context := None;
               searchTerm := Some ""; searchContent := None;
               answer := Some "I know this one."; previousQuestion := None |}.
Proof. vm_compute. repeat split. Qed.

(** C5.  For every search term, the Content Fetcher requests the pages
    of the first three search-result titles at most (all of them when
    there are fewer), in result order, and returns their texts joined by
    line feeds in that same order, whatever the order in which the page
    promises settle. *)
Theorem getWikiPageContent_result_order
    (env : Env) (order : nat -> list nat) (searchTerm : string) (p : Proc)
    (found : wiki.wikiSearchResult) (texts : list string) :
  wiki_search env (clock p) searchTerm = Ok found ->
  pageOutcomes env (S (clock p)) (take 3 (wiki.title <$> wiki.results found))
    = Ok <$> texts ->
  let titles := take 3 (wiki.title <$> wiki.results found) in
  let run := getWikiPageContent (withSettleOrder order env) searchTerm p in
  fst run = Ok (Js.join Js.LF texts)
  /\ trace (snd run)
     = trace p ++ [ConsoleLog (SearchingWikipediaFor searchTerm); WikiSearch searchTerm]
               ++ (WikiPage <$> titles)
               ++ [ConsoleLog (WikipediaSearchComplete (Js.join ", " titles))]
  /\ length titles <= 3
  /\ length texts = length titles.
Proof.
  intros Hsearch Hpages titles run.
  assert (run = getWikiPageContent (withSettleOrder order env) searchTerm p) as Hrun by done.
  rewrite (getWikiPageContent_fulfilled _ _ _ found texts) in Hrun.
  - rewrite Hrun. cbn [fst snd trace]. repeat split.
    + subst titles. rewrite length_take. lia.
    + apply (f_equal length) in Hpages. rewrite length_fmap in Hpages.
      rewrite <- Hpages. subst titles. clear.
      generalize (S (clock p)). induction (take 3 _) as [|x l IH]; intros t; simpl; [done|].
      by rewrite IH.
  - done.
  - by rewrite pageOutcomes_withSettleOrder.
Qed.

(** Four titles are found and the third page arrives first: the text is
    that of the first three pages, first to third. *)
Lemma getWikiPageContent_result_order_witness :
  fst (getWikiPageContent (withSettleOrder (fun _ => [2; 0; 1]) Sample.healthy)
         "Batman" started)
  = Ok (Js.join Js.LF ["Text of Batman"; "Text of Batman in film";
                       "Text of The Batman (film)"]).
Proof.
  apply (getWikiPageContent_result_order Sample.healthy (fun _ => [2; 0; 1])
           "Batman" started (Sample.found Sample.batmanTitles)
           ["Text of Batman"; "Text of Batman in film"; "Text of The Batman (film)"]);
    reflexivity.
Defined.

(** C6.  For every reply of the model to the reasoning step: if its
    tool calls hold one named [wikipedia], the step returns the
    [searchTerm] of the first such call as the search term, the current
    question as [previousQuestion], and the reply's text as the answer;
    if they hold none (or there are no tool calls at all), it returns
    the empty string as the search term and the reply's text as the
    answer, and writes nothing else. *)
Theorem search_reads_tool_call
    (env : Env) (state : State) (p : Proc) (response : AIMessage) :
  llm_invoke env (clock p) (searchMessages state) = Ok response ->
  ((exists calls call, tool_calls response = Some calls
                       /\ call ∈ calls /\ name call = "wikipedia") ->
   exists before call after,
     tool_calls response = Some (before ++ call :: after)
     /\ name call = "wikipedia"
     /\ Forall (fun c => name c <> "wikipedia") before
     /\ fst (search env state p)
        = Ok {| question := None; context := None;
                searchTerm := Some (searchTerm_arg (args call));
                searchContent := None; answer := Some (content response);
                previousQuestion := question state |})
  /\ ((forall calls call, tool_calls response = Some calls ->
                          call ∈ calls -> name call <> "wikipedia") ->
      fst (search env state p)
      = Ok {| question := None; context := None; searchTerm := Some "";
              searchContent := None; answer := Some (content response);
              previousQuestion := None |}).
Proof.
  intros Hllm. rewrite search_run, Hllm. cbn [fst]. unfold findWikiToolCall. split.
  - intros (calls & call & Hcalls & Hin & Hname). rewrite Hcalls.
    destruct (List.find _ calls) as [first|] eqn:Hfind.
    + destruct (find_wikipedia_Some calls first Hfind) as (before & after & -> & Hn & Hb).
      by exists before, first, after.
    + exfalso. eapply find_wikipedia_None; eauto.
  - intros Hnone. destruct (tool_calls response) as [calls|]; [|done].
    assert (List.find (fun c => String.eqb (name c) "wikipedia") calls = None) as ->; [|done].
    apply find_wikipedia_None. intros call Hin. by apply (Hnone calls).
Qed.

(** On a first question the sample model asks for a search on "Batman". *)
Lemma search_reads_tool_call_witness :
  exists before call after,
    tool_calls (Sample.askWikipedia "" "Batman") = Some (before ++ call :: after)
    /\ name call = "wikipedia"
    /\ Forall (fun c => name c <> "wikipedia") before
    /\ fst (search Sample.healthy (inputsOf "Who is Batman?") started)
       = Ok {| question := None; context := None;
               searchTerm := Some (searchTerm_arg (args call));
               searchContent := None; answer := Some "";
               previousQuestion := Some "Who is Batman?" |}.
Proof.
  apply (search_reads_tool_call Sample.healthy (inputsOf "Who is Batman?") started
           (Sample.askWikipedia "" "Batman") eq_refl).
  eexists _, _. split; [reflexivity|]. split; [by left | reflexivity].
Defined.

(** C7, as stated, fails: after a turn whose search found no page the
    state holds an empty context and an answer, and the reasoning step
    prompts in follow-up mode. *)
Lemma search_mode_counterexample :
  ~ (forall state,
       (exists q c a pq, searchMessages state = followUpPrompt q c a pq)
       <-> ((exists d ds, context state = Some (d :: ds))
            /\ (exists a, answer state = Some a /\ a <> ""))).
Proof.
  intros claim.
  destruct (claim (turnState "And then?" Runs.afterNothingFound)) as [Hfollow _].
  destruct Hfollow as [(d & ds & Hcontext) _].
  - eexists _, _, _, _. vm_compute. reflexivity.
  - vm_compute in Hcontext. discriminate.
Qed.

(** C7, amended.  For every turn, the reasoning step sends the
    follow-up prompt (the question with the previous context, answer
    and question) if and only if the state holds a context, be it an
    empty list, and a non-empty answer; otherwise it sends the starting
    prompt, with the question alone. *)
Theorem search_mode (env : Env) (state : State) (p : Proc) :
  let followUp := followUpPrompt (question state) (context state) (answer state)
                                 (previousQuestion state) in
  let fresh := startingPrompt (question state) in
  let holds := exists docs a, context state = Some docs
                              /\ answer state = Some a /\ a <> "" in
  trace (snd (search env state p)) = trace p ++ [LlmInvoke (searchMessages state)]
  /\ (searchMessages state = followUp <-> holds)
  /\ (searchMessages state = fresh <-> ~ holds).
Proof.
  intros followUp fresh holds. subst followUp fresh holds.
  split; [by rewrite search_run|].
  destruct (searchMessages_cases state) as [[Hholds ->] | [Hnot ->]].
  - split; split; try done.
  - split; split; try done.
Qed.

(** C8, as stated, fails.  The handler is given chunks, not lines, and
    never splits a chunk: when a pipe delivers "Who is Batman?" and
    "/bye" as one chunk of two lines, the second line does not end the
    process, however long the loop goes on without further input; the
    whole chunk is asked as one question.  And a question is not always
    followed by an answer or an error: when the exit command arrives
    while the turn is under way, the process exits and nothing more is
    printed, whatever the loop is asked to do next. *)
Lemma onData_lines_counterexample :
  ~ (forall env chunk line,
       line ∈ linesOf chunk -> Js.trim line ∈ byeSpellings ->
       exists more,
         Forall isResume more
         /\ Async.exitCode (Async.run env (Async.Data chunk :: more) (Async.idle started))
            = Some 0%Z)
  /\ ~ (forall env schedule chunk,
          Async.Data chunk ∈ schedule -> notBye chunk -> Js.trim chunk <> "" ->
          exists more,
            List.filter isVerdictLine
              (trace (Async.proc (Async.run env (schedule ++ more) (Async.idle started))))
            <> []).
Proof.
  split.
  - intros claim.
    destruct (claim Sample.healthy Loops.twoLines "/bye") as (more & Hmore & Hexit).
    + vm_compute. right. left.
    + vm_compute. left.
    + rewrite run_no_bye in Hexit; [discriminate | done | constructor |].
      constructor.
      * unfold deliversNoBye, notBye. vm_compute. intros Hin.
        repeat (apply elem_of_cons in Hin as [[=] | Hin]). by apply elem_of_nil in Hin.
      * eapply Forall_impl; [exact Hmore | apply isResume_deliversNoBye].
  - intros claim.
    destruct (claim Sample.healthy
                [Async.Data "Who is Batman?"; Async.Data "/bye"] "Who is Batman?")
      as [more Hmore].
    + left.
    + unfold notBye. vm_compute. intros Hin.
      repeat (apply elem_of_cons in Hin as [[=] | Hin]). by apply elem_of_nil in Hin.
    + discriminate.
    + apply Hmore. rewrite run_app.
      erewrite run_exited by reflexivity. reflexivity.
Qed.

(** The two lines are asked as one question. *)
Example onData_two_lines :
  trace (Async.proc (Async.run Sample.healthy [Async.Data Loops.twoLines]
                       (Async.idle started)))
  = [ConsoleLog Banner; ConsoleLog Thinking;
     GraphInvoke 1 (inputsOf ("Who is Batman?" +:+ Js.LF +:+ "/bye"))].
Proof. reflexivity. Qed.

(** C8, amended.  For every chunk of input delivered while the process
    runs, whatever handlers are under way: if the chunk is, once
    trimmed, [/bye] in any letter case, the handler prints the farewell
    and exits with code 0 at once, entering no turn, and nothing
    happens any more, so the turns under way print nothing further; if
    it is empty once trimmed, nothing is printed and nothing changes;
    any other chunk enters the graph once, on thread 1 and with the
    whole trimmed chunk as the question, and its handler is suspended.
    However that handler is interleaved with others, it enters no
    graph again and, if it gets to its end, it has printed the answer
    or else the error line, then the invitation to go on; resumed on
    its own it does get there, and the turn is the one [onData]
    describes. *)
Theorem onData_cases (env : Env) (data : string) (l : Async.Loop) :
  Async.exitCode l = None ->
  let q := Js.trim data in
  (q ∈ byeSpellings ->
     Async.step env l (Async.Data data)
     = {| Async.proc := emit (ProcessExit 0) (emit (ConsoleLog Goodbye) (Async.proc l));
          Async.waiting := Async.waiting l; Async.exitCode := Some 0%Z |}
     /\ forall schedule,
          Async.run env (Async.Data data :: schedule) l
          = Async.step env l (Async.Data data))
  /\ (q = "" -> Async.step env l (Async.Data data) = l)
  /\ (q ∉ byeSpellings -> q <> "" ->
      exists handler,
        Async.step env l (Async.Data data)
        = {| Async.proc := emit (GraphInvoke 1 (inputsOf q))
                             (emit (ConsoleLog Thinking) (Async.proc l));
             Async.waiting := Async.waiting l ++ [handler];
             Async.exitCode := None |}
        /\ (forall events o,
              runs handler events o ->
              o = Finished (Ok tt)
              /\ invocations events = 0
              /\ exists middle last,
                   events = middle ++ [last; ConsoleLog AskAnotherQuestion]
                   /\ Forall nodeEvent middle /\ isVerdictLine last = true)
        /\ exists n,
             Async.run env (replicate n (Async.Resume (length (Async.waiting l))))
               (Async.step env l (Async.Data data))
             = loopAfter (onData env data (Async.proc l)) (Async.waiting l)).
Proof.
  intros Hexit q. subst q. split; [|split].
  - intros Hbye. rewrite (step_bye env l data Hexit Hbye). split; [done|].
    intros schedule. rewrite run_cons, (step_bye env l data Hexit Hbye).
    by eapply run_exited.
  - intros Hblank. by apply step_blank.
  - intros Hbye Hblank.
    destruct (step_question env l data Hexit Hbye Hblank) as (handler & Hstep & Hlife).
    exists handler. split; [exact Hstep|]. split.
    + intros events o Hruns.
      destruct (Hlife events o Hruns) as (middle & last & -> & Hmiddle & Hlast & ->).
      split; [done|]. split; [|by exists middle, last].
      rewrite invocations_app, (nodeEvents_invocations middle Hmiddle).
      by destruct last as [[]|[]| | | | | | | |].
    + destruct (data_alone env data (Async.proc l) (Async.waiting l)) as [n Hn].
      exists n. rewrite run_cons in Hn.
      destruct l as [p handlers exit]. cbn [Async.exitCode Async.proc Async.waiting] in *.
      by subst exit.
Qed.

(** The exit command arrives while "Who is Batman?" is being answered. *)
Lemma onData_cases_witness :
  Async.step Sample.healthy Loops.thinking (Async.Data (" /Bye" +:+ Js.LF))
  = {| Async.proc := emit (ProcessExit 0)
                       (emit (ConsoleLog Goodbye) (Async.proc Loops.thinking));
       Async.waiting := Async.waiting Loops.thinking; Async.exitCode := Some 0%Z |}.
Proof.
  destruct (onData_cases Sample.healthy (" /Bye" +:+ Js.LF) Loops.thinking)
    as [Hbye _]; [reflexivity|].
  apply Hbye. vm_compute. do 4 right. left.
Defined.

(** C9.  On the first turn of a session (no checkpoint yet, nothing
    cached), if the reasoning step returns the empty search term, the
    turn does not answer: [fetchWiki] skips, [retrieve] is run on the
    absent [searchContent] and throws, and the handler prints the error
    line instead of the provisional answer. *)
Theorem first_turn_empty_search_term_fails
    (env : Env) (data : string) (p : Proc) (update : State) (p1 : Proc) :
  Js.toLowerCase (Js.trim data) <> "/bye" ->
  Js.trim data <> "" ->
  memory p !! 1%Z = None ->
  embeddingCache p !! None = None ->
  search env (inputsOf (Js.trim data)) (turnStart (Js.trim data) p) = (Ok update, p1) ->
  searchTerm update = Some "" ->
  let q := Js.trim data in
  let error := TypeError "Cannot read properties of undefined (reading 'includes')" in
  fst (turn env q p) = Err error
  /\ onData env data p
     = (Continue,
        {| clock := S (clock p);
           trace := trace p
                    ++ [ConsoleLog Thinking;
                        GraphInvoke 1 (inputsOf q);
                        LlmInvoke (startingPrompt (Some q));
                        ConsoleLog AnsweringFromPreviousContext;
                        ConsoleLog CreatingEmbeddings;
                        CreateEmbeddings None;
                        ConsoleError (ErrorProcessingQuestion error);
                        ConsoleLog AskAnotherQuestion];
           embeddingCache := embeddingCache p;
           memory := <[1%Z := applyUpdate update (inputsOf q)]> (memory p) |}).
Proof.
  intros Hbye Hblank Hfirst Hcache Hsearch Hterm q error. subst q error.
  destruct (search_clock _ _ _ _ _ Hsearch) as (Hp1 & Hq & Hctx & Hsc).
  assert (turn env (Js.trim data) p
          = (Err (TypeError "Cannot read properties of undefined (reading 'includes')"),
             emit (CreateEmbeddings None)
               (emit (ConsoleLog CreatingEmbeddings)
                  (snd (putCheckpoint 1 (applyUpdate update (inputsOf (Js.trim data)))
                     (emit (ConsoleLog AnsweringFromPreviousContext)
                        (snd (putCheckpoint 1 (applyUpdate update (inputsOf (Js.trim data)))
                                p1)))))))) as Hturn.
  { rewrite turn_runStages, (turnState_first _ _ Hfirst). unfold stages.
    rewrite runStages_cons, Hsearch.
    rewrite runStages_cons, fetchWiki_skips
      by (unfold applyUpdate; cbn [searchTerm]; by rewrite Hterm).
    rewrite applyUpdate_self.
    rewrite runStages_cons, retrieve_absent; [done | |].
    - unfold applyUpdate. cbn [searchContent]. by rewrite Hsc.
    - rewrite Hp1. cbn. exact Hcache. }
  split; [by rewrite Hturn|].
  rewrite (onData_question env data p Hbye Hblank), Hturn, Hp1.
  unfold turnStart. rewrite (turnState_first _ _ Hfirst).
  cbn. unfold emit. cbn. rewrite !insert_insert_eq. f_equal. f_equal.
  by rewrite <- !app_assoc.
Qed.

(** A model that answers a first question without a tool call. *)
Lemma first_turn_empty_search_term_fails_witness :
  fst (turn Sample.knowItAll "What is 2+2?" started)
  = Err (TypeError "Cannot read properties of undefined (reading 'includes')").
Proof.
  apply (first_turn_empty_search_term_fails Sample.knowItAll "What is 2+2?" started
           {| question := None; context := None; searchTerm := Some "";
              searchContent := None; answer := Some "I know this one.";
              previousQuestion := None |}
           (tick (emit (LlmInvoke (startingPrompt (Some "What is 2+2?")))
                    (turnStart "What is 2+2?" started))));
    try reflexivity; vm_compute; discriminate.
Defined.



(** ** Further properties of the program *)

(** X1.  The Content Fetcher returns a text exactly when the title
    search answers and every one of the (at most three) page requests
    yields its text; the text is then the line-feed join of the page
    texts in result order.  A page beyond the third plays no part. *)
Theorem getWikiPageContent_succeeds_iff
    (env : Env) (searchTerm : string) (p : Proc) (text : string) :
  fst (getWikiPageContent env searchTerm p) = Ok text
  <-> exists found texts,
        wiki_search env (clock p) searchTerm = Ok found
        /\ pageOutcomes env (S (clock p)) (take 3 (wiki.title <$> wiki.results found))
           = Ok <$> texts
        /\ text = Js.join Js.LF texts.
Proof.
  split.
  - rewrite getWikiPageContent_run.
    destruct (wiki_search env (clock p) searchTerm) as [found|e]; [|discriminate].
    cbv zeta.
    destruct (settleAll _ _) as [contents|e] eqn:Hall; [|discriminate].
    intros [= <-]. exists found, contents. split; [done|]. split; [|done].
    by apply settleAll_Ok_inv in Hall.
  - intros (found & texts & Hsearch & Hpages & ->).
    by rewrite (getWikiPageContent_fulfilled env searchTerm p found texts).
Qed.

(** X2.  How the Content Fetcher fails.  When the title search
    fails, its error is thrown and no page is requested.  When a page
    request among the first three fails, the fetch throws the error of
    one of the failed page requests, for every settling order; all the
    pages had been requested by then, and the closing console line is
    not written. *)
Theorem getWikiPageContent_failures (env : Env) (searchTerm : string) (p : Proc) :
  (forall e, wiki_search env (clock p) searchTerm = Err e ->
     getWikiPageContent env searchTerm p
     = (Err e,
        {| clock := S (clock p);
           trace := trace p ++ [ConsoleLog (SearchingWikipediaFor searchTerm);
                                WikiSearch searchTerm];
           embeddingCache := embeddingCache p; memory := memory p |}))
  /\ (forall found i e,
        wiki_search env (clock p) searchTerm = Ok found ->
        let titles := take 3 (wiki.title <$> wiki.results found) in
        pageOutcomes env (S (clock p)) titles !! i = Some (Err e) ->
        exists j e',
          fst (getWikiPageContent env searchTerm p) = Err e'
          /\ pageOutcomes env (S (clock p)) titles !! j = Some (Err e')
          /\ trace (snd (getWikiPageContent env searchTerm p))
             = trace p ++ [ConsoleLog (SearchingWikipediaFor searchTerm);
                           WikiSearch searchTerm] ++ (WikiPage <$> titles)).
Proof.
  split.
  - intros e Hsearch. rewrite getWikiPageContent_run, Hsearch.
    unfold tick, emit. simpl. by rewrite <- app_assoc.
  - intros found i e Hsearch titles Hi. subst titles.
    rewrite getWikiPageContent_run, Hsearch. cbv zeta. unfold MAX_SEARCH_RESULTS.
    destruct (settleAll_rejected
                (settleOrder env
                   (S (clock p) + length (take 3 (wiki.title <$> wiki.results found))))
                _ i e Hi) as (j & e' & Hall & Hj).
    cbn [clock]. rewrite Hall. by exists j, e'.
Qed.

(** The second page does not load and the third has no text. *)
Lemma getWikiPageContent_failures_witness :
  exists j e',
    fst (getWikiPageContent Faulty.brokenPages "Batman" started) = Err e'
    /\ pageOutcomes Faulty.brokenPages 1
         ["Batman"; "Batman in film"; "The Batman (film)"] !! j = Some (Err e')
    /\ trace (snd (getWikiPageContent Faulty.brokenPages "Batman" started))
       = [ConsoleLog Banner; ConsoleLog (SearchingWikipediaFor "Batman");
          WikiSearch "Batman"; WikiPage "Batman"; WikiPage "Batman in film";
          WikiPage "The Batman (film)"].
Proof.
  destruct (getWikiPageContent_failures Faulty.brokenPages "Batman" started) as [_ H].
  exact (H (Sample.found Sample.batmanTitles) 1 (ServiceError "page not found")
           eq_refl eq_refl).
Defined.

(** X3.  [retrieve] stores a new index before it searches it: when
    the build succeeds and the similarity search then fails, the step
    throws but the index stays in the cache, so the next turn on the
    same text does not build again.  When the build itself fails,
    nothing is stored, and the build was entered once. *)
Theorem retrieve_caches_before_searching
    (env : Env) (state : State) (p : Proc) (text : string) :
  searchContent state = Some text ->
  embeddingCache p !! Some text = None ->
  (forall vectorStore e,
      addDocuments env (clock p) (createDocuments env text) = Ok vectorStore ->
      similaritySearch vectorStore (S (clock p)) (question state) = Err e ->
      fst (retrieve env state p) = Err e
      /\ embeddingCache (snd (retrieve env state p))
         = <[Some text := vectorStore]> (embeddingCache p))
  /\ (forall e,
        addDocuments env (clock p) (createDocuments env text) = Err e ->
        fst (retrieve env state p) = Err e
        /\ embeddingCache (snd (retrieve env state p)) = embeddingCache p
        /\ builds (Some text) (newEvents p (snd (retrieve env state p))) = 1).
Proof.
  intros Hc Hget. split.
  - intros vectorStore e Hadd Hsim.
    rewrite (retrieve_built env state p text vectorStore Hc Hget Hadd), Hsim. done.
  - intros e Hadd.
    unfold retrieve, createEmbeddings, bind, cache_get, console_log, record, call.
    rewrite Hc, Hget. cbn [emit tick clock]. rewrite Hadd. cbn [fst snd].
    split; [done|]. split; [done|].
    rewrite (newEvents_app p _ [ConsoleLog CreatingEmbeddings; CreateEmbeddings (Some text);
                                AddDocuments (createDocuments env text)])
      by (cbn; by rewrite <- !app_assoc).
    unfold builds. cbn. by rewrite bool_decide_eq_true_2.
Qed.

(** Every store is built and none can be searched. *)
Lemma retrieve_caches_before_searching_witness :
  let state := {| question := Some "Who is Batman?"; context := None;
                  searchTerm := Some "Batman"; searchContent := Some "Text of Batman";
                  answer := Some ""; previousQuestion := Some "Who is Batman?" |} in
  fst (retrieve Faulty.deafStores state started)
  = Err (ServiceError "embedding the query failed")
  /\ embeddingCache (snd (retrieve Faulty.deafStores state started))
       !! Some "Text of Batman" = Some Faulty.deafStore.
Proof.
  intros state.
  destruct (retrieve_caches_before_searching Faulty.deafStores state started
              "Text of Batman" eq_refl eq_refl) as [Hbuilt _].
  destruct (Hbuilt Faulty.deafStore (ServiceError "embedding the query failed")
              eq_refl eq_refl) as [Herr Hcache].
  split; [exact Herr|]. rewrite Hcache. apply lookup_insert_eq.
Defined.

(** X4.  Whatever the input and the services, after any session
    nothing is cached under [undefined], every index in the cache is
    one that was built from the very text it is stored under, and
    thread 1 is the only thread with a checkpoint. *)
Theorem session_keeps_stores_tidy (env : Env) (input : list string) :
  let p := snd (session env input started) in
  embeddingCache p !! None = None
  /\ (forall text vectorStore,
        embeddingCache p !! Some text = Some vectorStore ->
        exists t, addDocuments env t (createDocuments env text) = Ok vectorStore)
  /\ (forall thread_id, thread_id <> 1%Z -> memory p !! thread_id = None).
Proof.
  apply (session_tidyStores env input started).
  split; [done|]. split; [|done]. intros text vs H. cbn in H.
  by rewrite lookup_empty in H.
Qed.

(** X5.  If the model never emits a [wikipedia] call, no question of
    the session is ever answered: every turn throws, in the reasoning
    step or, the fetch being skipped, in [retrieve] on the absent
    [searchContent], and no answer line is printed. *)
Theorem silent_model_never_answers (env : Env) (input : list string) :
  neverSearches env ->
  answerLines (trace (snd (session env input started))) = [].
Proof.
  intros Hnever.
  assert (∀ p, savedSearchContent p = None → embeddingCache p !! None = None →
               answerLines (trace (snd (session env input p))) = answerLines (trace p))
    as Hrun.
  { induction input as [|data rest IH]; intros p Hsaved Hcache; cbn [session]; [done|].
    destruct (onData_without_search env data p Hnever Hsaved Hcache) as (Ha & Hs & Hc).
    destruct (onData env data p) as [[|code] p1]; cbn [snd] in *; [|done].
    rewrite IH by done. exact Ha. }
  by rewrite Hrun.
Qed.

(** A model that answers every question itself, asked twice. *)
Lemma silent_model_never_answers_witness :
  answerLines (trace (snd (session Sample.knowItAll ["What is 2+2?"; "And 3+3?"] started)))
  = [].
Proof.
  apply (silent_model_never_answers Sample.knowItAll).
  intros t messages response [= <-]. reflexivity.
Defined.

(** X6.  How [main] ends.  Without an API key (absent or empty) it
    throws before the loop starts.  With a key, whatever chunks arrive
    and however the handlers are interleaved, [process.exit] is called
    by the exit command only: if no chunk delivered is [/bye], it was
    not called, whatever errors the turns met; otherwise the process
    exited with code 0 at the first [/bye] delivered, at once, in the
    state the loop had reached by then plus the farewell, the handlers
    still suspended being dropped, and nothing that comes later is
    handled. *)
Theorem main_outcomes (env : Env) (key : option string)
    (schedule : list Async.LoopEvent) :
  match Async.main env key schedule with
  | Err e =>
      Js.truthy_string key = false
      /\ e = ConfigError "OPENAI_API_KEY is required in .env file"
  | Ok l =>
      Js.truthy_string key = true
      /\ match Async.exitCode l with
         | None => Forall deliversNoBye schedule
         | Some code =>
             code = 0%Z
             /\ exists before data after,
                  schedule = before ++ Async.Data data :: after
                  /\ Forall deliversNoBye before
                  /\ Js.trim data ∈ byeSpellings
                  /\ l = {| Async.proc :=
                              emit (ProcessExit 0)
                                (emit (ConsoleLog Goodbye)
                                   (Async.proc (Async.run env before (Async.idle started))));
                            Async.waiting :=
                              Async.waiting (Async.run env before (Async.idle started));
                            Async.exitCode := Some 0%Z |}
         end
  end.
Proof.
  unfold Async.main. destruct (Js.truthy_string key); cbn [negb]; [|done].
  split; [done|].
  destruct (run_outcome env schedule (Async.idle started))
    as [[Hexit Hall] | (before & data & after & Hs & Hall & Hbye & _ & Hrun)];
    [done | constructor | |].
  - by rewrite Hexit.
  - rewrite Hrun. cbn [Async.exitCode]. split; [done|]. by exists before, data, after.
Qed.

(** X7.  While the process runs, a chunk leaves the loop exactly as it
    was (nothing printed, no turn entered, no handler added) if and
    only if it consists of white space only, the empty chunk included.
    White space is every WhiteSpace and LineTerminator character of
    ECMAScript, those outside Latin-1 too. *)
Theorem onData_ignores_exactly_white_space
    (env : Env) (data : string) (l : Async.Loop) :
  Async.exitCode l = None ->
  (Async.step env l (Async.Data data) = l <-> whiteSpaceOnly data).
Proof.
  intros Hexit. rewrite <- trim_empty. split.
  - intros Hstep.
    destruct (decide (Js.trim data ∈ byeSpellings)) as [Hbye|Hbye].
    { rewrite (step_bye env l data Hexit Hbye) in Hstep.
      apply (f_equal Async.exitCode) in Hstep. cbn in Hstep. congruence. }
    destruct (decide (Js.trim data = "")) as [Hblank|Hblank]; [done|]. exfalso.
    destruct (step_question env l data Hexit Hbye Hblank) as (rest & Hq & _).
    rewrite Hq in Hstep.
    apply (f_equal (fun l => length (Async.waiting l))) in Hstep.
    cbn in Hstep. rewrite length_app in Hstep. cbn in Hstep. lia.
  - intros Hblank. by apply step_blank.
Qed.

(** A chunk of wide white space arrives during a turn. *)
Lemma onData_ignores_exactly_white_space_witness :
  Async.step Sample.healthy Loops.thinking (Async.Data wideBlank) = Loops.thinking.
Proof.
  apply (onData_ignores_exactly_white_space Sample.healthy wideBlank Loops.thinking);
    [reflexivity|].
  unfold wideBlank.
  constructor; [vm_compute; do 23 right; left|].
  constructor; [vm_compute; do 19 right; left|].
  apply whiteSpaceOnly_one. vm_compute. right. left.
Defined.

(** X8.  The question the handler takes from a chunk is the chunk
    itself without the white space at its two ends: the chunk is white
    space, the question, white space, and the question neither starts
    nor ends with a white-space character.  White space inside is
    kept. *)
Theorem trim_strips_both_ends (data : string) :
  exists l r,
    data = l +:+ Js.trim data +:+ r
    /\ whiteSpaceOnly l
    /\ whiteSpaceOnly r
    /\ ~ startsWithWhiteSpace (Js.trim data)
    /\ ~ endsWithWhiteSpace (Js.trim data).
Proof.
  unfold Js.trim.
  destruct (trimStart_split data) as (l & Hl & Hlw & Hstart).
  destruct (trimEnd_split (Js.trimStart data)) as (r & Hr & Hrw & Hend).
  exists l, r. split; [by rewrite <- Hr|].
  split; [done|]. split; [done|]. split; [by apply trimEnd_start | done].
Qed.

(** X9.  Whenever a turn returns, the answer in its result is the
    model's reply to the answering prompt made of the question and of
    the line-feed join of the chunks in the result's own context; the
    text of the reasoning step is never the result. *)
Theorem turn_answer_is_generated
    (env : Env) (q : string) (p : Proc) (final : State) :
  fst (turn env q p) = Ok final ->
  exists retrievedDocs t reply,
    question final = Some q
    /\ context final = Some retrievedDocs
    /\ llm_invoke env t
         (prompt (Some q) (Js.join Js.LF (pageContent <$> retrievedDocs))) = Ok reply
    /\ answer final = Some (content reply).
Proof.
  rewrite turn_runStages. unfold stages.
  rewrite runStages_cons.
  destruct (search env _ _) as [[u1|?] p1] eqn:H1; [|discriminate].
  destruct (search_clock _ _ _ _ _ H1) as (_ & Hq1 & _ & _).
  set (s1 := applyUpdate u1 (turnState q p)).
  assert (question s1 = Some q) as Hs1
    by (unfold s1, applyUpdate, turnState; cbn [question]; by rewrite Hq1).
  clearbody s1. rewrite runStages_cons.
  destruct (fetchWiki env _ _) as [[u2|?] p2] eqn:H2; [|discriminate].
  destruct (fetchWiki_update _ _ _ _ _ H2) as (Hq2 & _).
  set (s2 := applyUpdate u2 s1) in *. rewrite Hs1 in Hq2. clearbody s2.
  rewrite runStages_cons.
  destruct (retrieve env _ _) as [[u3|?] p3] eqn:H3; [|discriminate].
  destruct (retrieve_update _ _ _ _ _ H3) as [docs ->].
  set (s3 := applyUpdate _ s2).
  assert (question s3 = Some q ∧ context s3 = Some docs) as [Hq3 Hc3]
    by (unfold s3, applyUpdate; cbn; by rewrite Hq2).
  clearbody s3. rewrite runStages_cons, (generate_run env s3 _ docs Hc3), Hq3.
  destruct (llm_invoke env _ _) as [reply|?] eqn:H4; [|discriminate].
  cbn [runStages ret fst]. intros [= <-].
  eexists docs, _, reply. split; [by unfold applyUpdate; cbn; rewrite Hq3|].
  split; [by unfold applyUpdate; cbn; rewrite Hc3|]. split; [exact H4 | done].
Qed.

(** The answer to the first question is the reply of [generate]. *)
Lemma turn_answer_is_generated_witness :
  exists retrievedDocs t reply,
    Some "Who is Batman?" = Some "Who is Batman?"
    /\ Some [ {| pageContent := Js.join Js.LF ["Text of Batman"; "Text of Batman in film";
                                               "Text of The Batman (film)"] |} ]
       = Some retrievedDocs
    /\ llm_invoke Sample.healthy t
         (prompt (Some "Who is Batman?") (Js.join Js.LF (pageContent <$> retrievedDocs)))
       = Ok reply
    /\ Some "Batman is a superhero." = Some (content reply).
Proof.
  apply (turn_answer_is_generated Sample.healthy "Who is Batman?" started
           {| question := Some "Who is Batman?";
              context := Some [ {| pageContent :=
                           Js.join Js.LF ["Text of Batman"; "Text of Batman in film";
                                          "Text of The Batman (film)"] |} ];
              searchTerm := Some "Batman";
              searchContent := Some (Js.join Js.LF ["Text of Batman"; "Text of Batman in film";
                                                    "Text of The Batman (film)"]);
              answer := Some "Batman is a superhero.";
              previousQuestion := Some "Who is Batman?" |}).
  vm_compute. reflexivity.
Defined.

(** X10.  A turn in which the model asks for a search and every
    service answers: the pages of the first three titles are fetched,
    an index is built from their joined texts (none being cached for
    that text) and stored under it, the chunks retrieved for the
    question are put to the model, and the turn returns a state holding
    the question, the term, the fetched text, the chunks, the model's
    final reply as the answer, and the question as [previousQuestion];
    that state is the thread's checkpoint. *)
Theorem search_turn_answers
    (env : Env) (q : string) (p : Proc) (response : AIMessage) (call : ToolCall)
    (found : wiki.wikiSearchResult) (texts : list string)
    (vectorStore : MemoryVectorStore) (retrievedDocs : list Document)
    (reply : AIMessage) :
  let term := searchTerm_arg (args call) in
  let titles := take 3 (wiki.title <$> wiki.results found) in
  let text := Js.join Js.LF texts in
  let t := S (S (clock p)) + length titles in
  llm_invoke env (clock p) (searchMessages (turnState q p)) = Ok response ->
  findWikiToolCall response = Some call ->
  term <> "" ->
  wiki_search env (S (clock p)) term = Ok found ->
  pageOutcomes env (S (S (clock p))) titles = Ok <$> texts ->
  embeddingCache p !! Some text = None ->
  addDocuments env t (createDocuments env text) = Ok vectorStore ->
  similaritySearch vectorStore (S t) (Some q) = Ok retrievedDocs ->
  llm_invoke env (S (S t))
    (prompt (Some q) (Js.join Js.LF (pageContent <$> retrievedDocs))) = Ok reply ->
  let final := {| question := Some q; context := Some retrievedDocs;
                  searchTerm := Some term; searchContent := Some text;
                  answer := Some (content reply); previousQuestion := Some q |} in
  fst (turn env q p) = Ok final
  /\ memory (snd (turn env q p)) !! 1%Z = Some final
  /\ embeddingCache (snd (turn env q p)) = <[Some text := vectorStore]> (embeddingCache p)
  /\ newEvents p (snd (turn env q p))
     = [ConsoleLog Thinking;
        GraphInvoke 1 (inputsOf q);
        LlmInvoke (searchMessages (turnState q p));
        ConsoleLog (FetchingWikipediaContentFor (Some term));
        ConsoleLog (SearchingWikipediaFor term);
        WikiSearch term]
       ++ (WikiPage <$> titles)
       ++ [ConsoleLog (WikipediaSearchComplete (Js.join ", " titles));
           ConsoleLog CreatingEmbeddings;
           CreateEmbeddings (Some text);
           AddDocuments (createDocuments env text);
           ConsoleLog CreatedEmbeddings;
           SimilaritySearch (Some q);
           LlmInvoke (prompt (Some q) (Js.join Js.LF (pageContent <$> retrievedDocs)))].
Proof.
  intros term titles text t Hllm Hcall Hterm Hsearch Hpages Hfresh Hadd Hsim Hreply final.
  rewrite turn_runStages. unfold stages.
  rewrite runStages_cons, search_run.
  change (clock (turnStart q p)) with (clock p). rewrite Hllm, Hcall.
  fold term.
  set (s1 := applyUpdate _ (turnState q p)).
  assert (s1 = {| question := Some q; context := context (turnState q p);
                  searchTerm := Some term;
                  searchContent := searchContent (turnState q p);
                  answer := Some (content response);
                  previousQuestion := Some q |}) as Hs1 by reflexivity.
  clearbody s1.
  unfold turnStart. cbn [putCheckpoint snd emit tick clock trace embeddingCache memory].
  rewrite runStages_cons, (fetchWiki_fetches env s1 _ term) by (by subst s1).
  rewrite (getWikiPageContent_fulfilled env term _ found texts) by done.
  unfold MAX_SEARCH_RESULTS. fold titles text.
  cbn [putCheckpoint snd emit tick clock trace embeddingCache memory].
  set (s2 := applyUpdate _ s1).
  assert (s2 = {| question := Some q; context := context (turnState q p);
                  searchTerm := Some term; searchContent := Some text;
                  answer := Some (content response);
                  previousQuestion := Some q |}) as Hs2 by (by subst s1).
  clearbody s2.
  rewrite runStages_cons, (retrieve_built env s2 _ text vectorStore)
    by (by subst s2).
  replace (question s2) with (Some q) by (by subst s2).
  cbn [putCheckpoint snd emit tick clock trace embeddingCache memory]. fold t.
  rewrite Hsim.
  set (s3 := applyUpdate _ s2).
  assert (s3 = {| question := Some q; context := Some retrievedDocs;
                  searchTerm := Some term; searchContent := Some text;
                  answer := Some (content response);
                  previousQuestion := Some q |}) as Hs3 by (by subst s2).
  clearbody s3.
  rewrite runStages_cons, (generate_run env s3 _ retrievedDocs) by (by subst s3).
  replace (question s3) with (Some q) by (by subst s3).
  cbn [putCheckpoint snd emit tick clock trace embeddingCache memory]. rewrite Hreply.
  cbn [runStages ret fst snd putCheckpoint emit tick memory embeddingCache trace].
  replace (applyUpdate _ s3) with final by (by subst s3).
  split; [done|]. split; [apply lookup_insert_eq|]. split; [done|].
  apply newEvents_app. rewrite <- !app_assoc. reflexivity.
Qed.

(** The first question of the README's session. *)
Lemma search_turn_answers_witness :
  fst (turn Sample.healthy "Who is Batman?" started)
  = Ok {| question := Some "Who is Batman?";
          context := Some [ {| pageContent :=
                     Js.join Js.LF ["Text of Batman"; "Text of Batman in film";
                                    "Text of The Batman (film)"] |} ];
          searchTerm := Some "Batman";
          searchContent := Some (Js.join Js.LF ["Text of Batman"; "Text of Batman in film";
                                                "Text of The Batman (film)"]);
          answer := Some "Batman is a superhero.";
          previousQuestion := Some "Who is Batman?" |}.
Proof.
  eapply proj1.
  apply (search_turn_answers Sample.healthy "Who is Batman?" started
              (Sample.askWikipedia "" "Batman")
              {| name := "wikipedia"; args := {| searchTerm_arg := "Batman" |} |}
              (Sample.found Sample.batmanTitles)
              ["Text of Batman"; "Text of Batman in film"; "Text of The Batman (film)"]
              (Sample.store [ {| pageContent :=
                  Js.join Js.LF ["Text of Batman"; "Text of Batman in film";
                                 "Text of The Batman (film)"] |} ])
              [ {| pageContent :=
                  Js.join Js.LF ["Text of Batman"; "Text of Batman in film";
                                 "Text of The Batman (film)"] |} ]
              (Sample.say "Batman is a superhero."));
    try reflexivity.
  discriminate.
Defined.

(** X11.  The calls a chunk of input can cost.  Handling one chunk
    makes at most two calls to the chat model, one title search, three
    page requests, one embedding build and one similarity search,
    whatever the services answer; a session over [n] chunks makes at
    most [n] times that. *)
Theorem calls_per_turn (env : Env) (s : Service) :
  (forall data p, calls s (newEvents p (snd (onData env data p))) <= perTurn s)
  /\ (forall input p,
        calls s (newEvents p (snd (session env input p))) <= length input * perTurn s).
Proof.
  split.
  - intros data p. destruct (onData_spends env data p) as (events & Ht & Hb).
    by rewrite (newEvents_app _ _ _ Ht).
  - intros input p. destruct (session_spends env input p) as (events & Ht & Hb).
    rewrite (newEvents_app _ _ _ Ht). apply Hb.
Qed.

(** X13.  When every page request yields its text, the order in which
    the parallel page fetches settle changes nothing at all: the whole
    session (what is printed, the checkpoints, the cache, the exit) is
    the same under every settling order. *)
Theorem settle_order_is_immaterial
    (env : Env) (order : nat -> list nat) (input : list string) (p : Proc) :
  pagesLoad env ->
  session (withSettleOrder order env) input p = session env input p.
Proof.
  intros Hload. revert p. induction input as [|data rest IH]; intros p; cbn [session].
  - done.
  - rewrite (onData_any_order env order data p Hload).
    destruct (onData env data p) as [[|code] p1]; [apply IH | done].
Qed.

(** The README's session with the second page arriving first. *)
Lemma settle_order_is_immaterial_witness :
  session (withSettleOrder (fun _ => [1; 2; 0]) Sample.healthy)
    ["Who is Batman?"; "Who played him?"] started
  = session Sample.healthy ["Who is Batman?"; "Who played him?"] started.
Proof.
  apply (settle_order_is_immaterial Sample.healthy (fun _ => [1; 2; 0])).
  intros t title. eexists. reflexivity.
Defined.

(** X14.  Where the error of a failed turn comes from.  When every
    cached index was built by the embedding service, as it is all
    through a session, a turn that fails fails with an error that one
    of the services returned (the chat model, the title search, a page
    request, the embedding build, the similarity search of an index
    that the service built), passed on as it is; or else no text was
    ever fetched in the conversation and the error is the [TypeError]
    of [createEmbeddings] on an absent text.  The graph runner and
    [generate] never fail on their own. *)
Theorem turn_error_provenance (env : Env) (q : string) (p : Proc) (e : JsError) :
  tidyStores env p ->
  fst (turn env q p) = Err e ->
  serviceError env e
  \/ (savedSearchContent p = None /\ exists msg, e = TypeError msg).
Proof.
  intros Htidy. rewrite turn_runStages. unfold stages.
  assert (tidyStores env (turnStart q p)) as Htidy0
    by (unfold turnStart; by apply putCheckpoint_tidyStores).
  rewrite runStages_cons.
  pose proof (stages_tidyStores env (search env) (turnState q p) _
                ltac:(unfold stages; left) Htidy0) as Htidy1.
  destruct (search env _ _) as [[u1|e1] p1] eqn:H1.
  2:{ intros [= <-]. left. exact (search_error env _ _ e1 (f_equal fst H1)). }
  cbn [snd] in Htidy1. apply (putCheckpoint_tidyStores env
    (applyUpdate u1 (turnState q p))) in Htidy1.
  rewrite runStages_cons.
  pose proof (stages_tidyStores env (fetchWiki env) (applyUpdate u1 (turnState q p)) _
                ltac:(unfold stages; right; left) Htidy1) as Htidy2.
  destruct (fetchWiki env _ _) as [[u2|e2] p2] eqn:H2.
  2:{ intros [= <-]. left. exact (fetchWiki_error env _ _ e2 (f_equal fst H2)). }
  cbn [snd] in Htidy2. apply (putCheckpoint_tidyStores env
    (applyUpdate u2 (applyUpdate u1 (turnState q p)))) in Htidy2.
  rewrite runStages_cons.
  destruct (retrieve env _ _) as [[u3|e3] p3] eqn:H3.
  2:{ intros [= <-].
      destruct (retrieve_error env _ _ e3 (tidyStores_builtStores _ _ Htidy2)
                  (f_equal fst H3)) as [?|[Hnone ?]]; [by left|].
      right. split; [|done]. rewrite <- (turnState_searchContent q).
      unfold applyUpdate, orElse in Hnone. cbn [searchContent] in Hnone.
      destruct (searchContent u2); [done|]. by destruct (searchContent u1). }
  destruct (retrieve_update _ _ _ _ _ H3) as [docs ->].
  rewrite runStages_cons.
  erewrite (generate_run env _ _ docs) by reflexivity.
  destruct (llm_invoke env _ _) as [reply|e4] eqn:H4; [discriminate|].
  intros [= <-]. left. left. by eexists _, _.
Qed.

(** The first question, every index built being deaf: the error is
    that of the similarity search of the index just built. *)
Lemma turn_error_provenance_witness :
  serviceError Faulty.deafStores (ServiceError "embedding the query failed")
  \/ (savedSearchContent started = None
      /\ exists msg, ServiceError "embedding the query failed" = TypeError msg).
Proof.
  apply (turn_error_provenance Faulty.deafStores "Who is Batman?" started).
  - split; [reflexivity|]. split; [|reflexivity].
    intros text vectorStore Hget. vm_compute in Hget. discriminate Hget.
  - vm_compute. reflexivity.
Defined.

(** X15.  The turn that answers from the previous context.  When the
    reasoning step returns the empty search term, [fetchWiki] returns
    the state it was given, so the state is unchanged, and the Content
    Fetcher is not called; when, moreover, the state carries a
    [searchContent] whose index is in the cache and the similarity
    search and the model answer, the turn goes on through [retrieve],
    on that cached index, and [generate], and ends with the model's
    new reply as the answer. *)
Theorem skip_turn_answers_from_cached_index
    (env : Env) (q : string) (p : Proc) (update : State) (p1 : Proc) :
  search env (turnState q p) (turnStart q p) = (Ok update, p1) ->
  searchTerm update = Some "" ->
  let state1 := applyUpdate update (turnState q p) in
  (forall p2, fetchWiki env state1 p2
              = (Ok state1, emit (ConsoleLog AnsweringFromPreviousContext) p2))
  /\ applyUpdate state1 state1 = state1
  /\ (forall text vectorStore retrievedDocs reply,
        searchContent (turnState q p) = Some text ->
        embeddingCache p !! Some text = Some vectorStore ->
        similaritySearch vectorStore (S (clock p)) (Some q) = Ok retrievedDocs ->
        llm_invoke env (S (S (clock p)))
          (prompt (Some q) (Js.join Js.LF (pageContent <$> retrievedDocs))) = Ok reply ->
        fst (turn env q p)
        = Ok {| question := Some q; context := Some retrievedDocs;
                searchTerm := Some ""; searchContent := Some text;
                answer := Some (content reply);
                previousQuestion := previousQuestion state1 |}
        /\ newEvents p (snd (turn env q p))
           = [ConsoleLog Thinking;
              GraphInvoke 1 (inputsOf q);
              LlmInvoke (searchMessages (turnState q p));
              ConsoleLog AnsweringFromPreviousContext;
              ConsoleLog UsingCachedEmbeddings;
              SimilaritySearch (Some q);
              LlmInvoke (prompt (Some q) (Js.join Js.LF (pageContent <$> retrievedDocs)))]).
Proof.
  intros Hsearch Hterm state1.
  assert (searchTerm state1 = Some "") as Hterm1
    by (subst state1; unfold applyUpdate; cbn [searchTerm]; by rewrite Hterm).
  split; [intros p2; by apply fetchWiki_skips|].
  split; [apply applyUpdate_self|].
  intros text vectorStore retrievedDocs reply Hcontent Hcached Hsim Hllm.
  destruct (search_clock _ _ _ _ _ Hsearch) as (Hp1 & Hq & Hctx & Hsc).
  assert (question state1 = Some q) as Hq1
    by (subst state1; unfold applyUpdate, turnState; cbn [question]; by rewrite Hq).
  assert (searchContent state1 = Some text) as Hsc1
    by (subst state1; unfold applyUpdate; cbn [searchContent]; by rewrite Hsc).
  rewrite turn_runStages. unfold stages.
  rewrite runStages_cons, Hsearch. fold state1. clearbody state1.
  rewrite runStages_cons, fetchWiki_skips by done.
  rewrite applyUpdate_self.
  rewrite runStages_cons, (retrieve_cached env state1 _ vectorStore)
    by (rewrite Hsc1, Hp1; exact Hcached).
  rewrite Hp1, Hq1. cbn [putCheckpoint snd emit tick clock].
  change (clock (turnStart q p)) with (clock p). rewrite Hsim.
  rewrite runStages_cons. erewrite generate_run by reflexivity.
  cbn [applyUpdate question context orElse clock]. rewrite Hq1, Hllm.
  cbn [runStages ret fst snd]. split.
  - unfold applyUpdate, orElse. cbn. rewrite Hq1, Hterm1, Hsc1. reflexivity.
  - apply newEvents_app. unfold turnStart. cbn. by rewrite <- !app_assoc.
Qed.

(** After "Who is Batman?" the model answers "Who played him?" without
    a tool call; the turn ends with the reply of [generate]. *)
Lemma skip_turn_answers_from_cached_index_witness :
  fst (turn Sample.healthy "Who played him?" Runs.afterBatmanHealthy)
  = Ok {| question := Some "Who played him?";
          context := Some [ {| pageContent :=
                     Js.join Js.LF ["Text of Batman"; "Text of Batman in film";
                                    "Text of The Batman (film)"] |} ];
          searchTerm := Some "";
          searchContent := Some (Js.join Js.LF ["Text of Batman"; "Text of Batman in film";
                                                "Text of The Batman (film)"]);
          answer := Some "Batman is a superhero.";
          previousQuestion := Some "Who is Batman?" |}.
Proof.
  destruct (skip_turn_answers_from_cached_index Sample.healthy "Who played him?"
              Runs.afterBatmanHealthy
              {| question := None; context := None; searchTerm := Some "";
                 searchContent := None;
                 answer := Some "He was played by Michael Keaton.";
                 previousQuestion := None |}
              (tick (emit (LlmInvoke (searchMessages
                                        (turnState "Who played him?"
                                           Runs.afterBatmanHealthy)))
                       (turnStart "Who played him?" Runs.afterBatmanHealthy))))
    as (_ & _ & Hcached); [vm_compute; reflexivity | reflexivity |].
  destruct (Hcached
              (Js.join Js.LF ["Text of Batman"; "Text of Batman in film";
                              "Text of The Batman (film)"])
              (Sample.store [ {| pageContent :=
                  Js.join Js.LF ["Text of Batman"; "Text of Batman in film";
                                 "Text of The Batman (film)"] |} ])
              [ {| pageContent :=
                  Js.join Js.LF ["Text of Batman"; "Text of Batman in film";
                                 "Text of The Batman (film)"] |} ]
              (Sample.say "Batman is a superhero."))
    as [Hfinal _]; [vm_compute; reflexivity .. |].
  exact Hfinal.
Defined.

(** X16.  The two embeddings agree.  When the chunks are handled one
    at a time, each handler resumed to its end before the next chunk
    is delivered, the event loop does what [session] does: for every
    input there are numbers of resumptions, one for each chunk, such
    that this schedule ends with the process state and the exit code of
    [session], the handlers that were suspended before still waiting. *)
Theorem session_is_a_schedule (env : Env) (input : list string) (p : Proc)
    (handlers : list (Async.Task unit)) :
  exists resumptions,
    length resumptions = length input
    /\ Async.run env (oneAtATime (length handlers) input resumptions)
         {| Async.proc := p; Async.waiting := handlers; Async.exitCode := None |}
       = loopAfter (session env input p) handlers.
Proof.
  revert p. induction input as [|data input IH]; intros p.
  - by exists [].
  - destruct (data_alone env data p handlers) as [n Hn]. cbn [session].
    destruct (onData env data p) as [[|code] p'] eqn:Hdata.
    + destruct (IH p') as (resumptions & Hlen & Hrun).
      exists (n :: resumptions). split; [cbn; by rewrite Hlen|].
      cbn [oneAtATime]. by rewrite app_comm_cons, run_app, Hn.
    + exists (n :: replicate (length input) 0). split; [cbn; by rewrite length_replicate|].
      cbn [oneAtATime]. rewrite app_comm_cons, run_app, Hn.
      by eapply run_exited.
Qed.
